(** * nscm: a git wrapper that writes the commit message

    A shallow embedding of [nscm.py] and the properties of its argument
    classifier ([_extract_commit_args]), its diff collector
    ([_get_staged_diff]), its message generator ([_generate_message]) and
    its entry point ([main]).

    Python values are modelled as follows.
    - [str] is a list of Unicode code points, so that [len] is [length] and
      slicing is [firstn]; literals are written with [lit].
    - [List[str]] is [list str]; a tuple is a product.
    - An exception is a value of [exn]; a function that may raise returns
      in the monad [io], which also records the external calls it makes.
    - Everything outside the program (the git binary, the environment, the
      network, the library routines [json.loads] and [str.lower]) is read
      from a record [World]. *)

From Stdlib Require Import Ascii String.
From Stdlib Require Import List Bool Arith NArith ZArith Lia.
Import ListNotations.

(** ** Strings *)

Definition char := N.
Definition str := list char.

(** An ASCII literal as a [str]. *)
Definition lit (s : string) : str :=
  List.map N_of_ascii (list_ascii_of_string s).
Arguments lit s%_string.

Fixpoint str_eqb (s t : str) : bool :=
  match s, t with
  | [], [] => true
  | c :: s', d :: t' => N.eqb c d && str_eqb s' t'
  | _, _ => false
  end.

(** [str.isspace] on one character: the code points Python treats as
    whitespace. *)
Definition isspace (c : char) : bool :=
  (((9 <=? c) && (c <=? 13)) || ((28 <=? c) && (c <=? 32))
   || (c =? 133) || (c =? 160) || (c =? 5760)
   || ((8192 <=? c) && (c <=? 8202))
   || (c =? 8232) || (c =? 8233) || (c =? 8239) || (c =? 8287)
   || (c =? 12288))%N.

(** The line boundaries of [str.splitlines]:
    LF, VT, FF, CR, FS, GS, RS, NEL, LS, PS. *)
Definition is_linebreak (c : char) : bool :=
  (((10 <=? c) && (c <=? 13)) || ((28 <=? c) && (c <=? 30))
   || (c =? 133) || (c =? 8232) || (c =? 8233))%N.

Definition LF : char := 10%N.
Definition CR : char := 13%N.

Fixpoint lstrip (s : str) : str :=
  match s with
  | [] => []
  | c :: s' => if isspace c then lstrip s' else s
  end.

Definition rstrip (s : str) : str := rev (lstrip (rev s)).

(** [s.strip()] *)
Definition strip (s : str) : str := rstrip (lstrip s).

(** [s.splitlines()], with [cur] the line being read.  A line ends at a
    line boundary, CR LF counting as one; what follows the last boundary
    is a line only when it is not empty. *)
Fixpoint splitlines_from (cur : str) (s : str) : list str :=
  match s with
  | [] => match cur with [] => [] | _ => [cur] end
  | c :: s' =>
      if is_linebreak c then
        cur :: match s' with
               | d :: s'' =>
                   if (c =? CR)%N && (d =? LF)%N
                   then splitlines_from [] s''
                   else splitlines_from [] s'
               | [] => splitlines_from [] s'
               end
      else splitlines_from (cur ++ [c]) s'
  end.

Definition splitlines (s : str) : list str := splitlines_from [] s.

(** [sep.join(l)] *)
Fixpoint join (sep : str) (l : list str) : str :=
  match l with
  | [] => []
  | x :: l' =>
      match l' with
      | [] => x
      | _ => x ++ sep ++ join sep l'
      end
  end.

(** [l[:n]] for a Python integer [n]: a negative bound counts from the
    end. *)
Definition slice_to {A : Type} (n : Z) (l : list A) : list A :=
  if (0 <=? n)%Z then firstn (Z.to_nat n) l
  else firstn (length l - Z.to_nat (- n)) l.

(** [s.startswith(p)] *)
Fixpoint startswith (s p : str) : bool :=
  match p, s with
  | [], _ => true
  | d :: p', c :: s' => N.eqb c d && startswith s' p'
  | _ :: _, [] => false
  end.

(** ** The argument classifier *)

Definition commit : str := lit "commit".
Definition short_flag : str := lit "-m".
Definition long_flag : str := lit "--message".
Definition double_quote : str := [34%N].
Definition single_quote : str := [39%N].

(** The test on [a]: the short or the long message flag. *)
Definition is_message_flag (a : str) : bool :=
  str_eqb a short_flag || str_eqb a long_flag.

(** The test on [val]: the empty string, one double quotation mark or
    one single quotation mark. *)
Definition is_empty_message (val : str) : bool :=
  str_eqb val [] || str_eqb val double_quote || str_eqb val single_quote.

(** The [while i < len(args)] loop of [_extract_commit_args].  [rest] is
    [args[i:]], the tokens not read yet; [should_generate] and [cleaned]
    are the loop's two variables. *)
Fixpoint extract_loop (args rest : list str) (should_generate : bool)
    (cleaned : list str) {struct rest} : bool * list str :=
  match rest with
  | [] => (should_generate, cleaned)
  | a :: rest1 =>
      if is_message_flag a then
        match rest1 with
        | val :: rest2 =>
            if is_empty_message val
            then extract_loop args rest2 true cleaned
            else (false, commit :: args)
        | [] => extract_loop args rest1 true cleaned
        end
      else extract_loop args rest1 should_generate (cleaned ++ [a])
  end.

Definition _extract_commit_args (argv : list str) : bool * list str :=
  match argv with
  | [] => (false, argv)
  | argv0 :: args =>
      if negb (str_eqb argv0 commit) then (false, argv)
      else extract_loop args args false [commit]
  end.

(** The same loop written with the index [i], as the source has it.  Each
    round needs one unit of [fuel]; [None] is a run that was cut short. *)
Fixpoint extract_loop_at (fuel : nat) (args : list str) (i : nat)
    (should_generate : bool) (cleaned : list str)
  : option (bool * list str) :=
  match fuel with
  | O => None
  | S fuel' =>
      if i <? length args then
        let a := nth i args [] in
        if is_message_flag a then
          if i + 1 <? length args then
            let val := nth (i + 1) args [] in
            if is_empty_message val
            then extract_loop_at fuel' args (i + 2) true cleaned
            else Some (false, commit :: args)
          else extract_loop_at fuel' args (i + 1) true cleaned
        else extract_loop_at fuel' args (i + 1) should_generate
               (cleaned ++ [a])
      else Some (should_generate, cleaned)
  end.

(** *** Vocabulary for the classifier's properties *)

(** Some message flag of [args] is directly followed by a value that is
    neither empty nor a bare quotation mark. *)
Fixpoint has_real_message (args : list str) : bool :=
  match args with
  | a :: rest =>
      match rest with
      | val :: _ =>
          (is_message_flag a && negb (is_empty_message val))
          || has_real_message rest
      | [] => false
      end
  | [] => false
  end.

(** The tokens the loop keeps when it reaches the end of [rest]; [None]
    when it returns early. *)
Fixpoint kept (rest : list str) : option (list str) :=
  match rest with
  | [] => Some []
  | a :: rest1 =>
      if is_message_flag a then
        match rest1 with
        | val :: rest2 =>
            if is_empty_message val then kept rest2 else None
        | [] => Some []
        end
      else option_map (cons a) (kept rest1)
  end.

(** [l1] is [l2] with some elements left out. *)
Inductive subseq {A : Type} : list A -> list A -> Prop :=
  | subseq_nil : subseq [] []
  | subseq_skip x l1 l2 : subseq l1 l2 -> subseq l1 (x :: l2)
  | subseq_keep x l1 l2 : subseq l1 l2 -> subseq (x :: l1) (x :: l2).

(** A token that is neither a message flag nor an empty message value. *)
Definition is_plain (a : str) : bool :=
  negb (is_message_flag a) && negb (is_empty_message a).

(** [args] without its message flags and without the token that directly
    follows each of them; [after_flag] says that the token before the
    head of [args] was a message flag. *)
Fixpoint drop_messages (after_flag : bool) (args : list str) : list str :=
  match args with
  | [] => []
  | a :: rest =>
      if is_message_flag a || after_flag
      then drop_messages (is_message_flag a) rest
      else a :: drop_messages false rest
  end.

(** The first character of [s] is whitespace. *)
Definition starts_with_space (s : str) : bool :=
  match s with
  | c :: _ => isspace c
  | [] => false
  end.

(** All of [s] is whitespace (so is the empty string). *)
Definition is_blank (s : str) : bool := forallb isspace s.

(** No character of [s] is a line boundary. *)
Definition one_line (s : str) : bool :=
  forallb (fun c => negb (is_linebreak c)) s.

(** ** Effects: exceptions and external calls *)

(** What a [RuntimeError] of the program says.  The texts built with an
    f-string from another exception are kept as a tag. *)
Inductive error_text :=
  | DiffError (text : str)
  | MissingApiKey
  | RequestFailed
  | HttpError (status : Z)
  | UnexpectedFormat
  | UnsupportedProvider (provider : str).

Inductive exn :=
  | RuntimeError (text : error_text)
  | IndexError.

(** The body of the request sent to the completion endpoint: the model
    and the role-tagged messages (temperature and token budget are
    constants of the source). *)
Record payload := {
  p_model : str;
  p_messages : list (str * str)
}.

(** What the program writes for the user. *)
Inductive output :=
  | FailedToReadDiff (e : exn)
  | NoStagedChanges
  | Generating
  | GenerationFailed (e : exn)
  | EmptyMessage
  | ShowMessage (message : str).

Inductive event :=
  | RunGit (args : list str)
  | CaptureGit (args : list str)
  | Post (p : payload)
  | PrintErr (o : output)
  | PrintOut (o : output).

Inductive post_result :=
  | PostRaised
  | PostReturned (status : Z) (text : str).

Record config := {
  provider : str;
  model : str;
  style : str
}.

Record World := {
  (** exit status of [git args], output streamed *)
  w_run_git : list str -> Z;
  (** exit status, stdout and stderr of [git args], output captured *)
  w_capture_git : list str -> Z * str * str;
  (** the result of [_get_config]: environment, rc file, defaults *)
  w_config : config;
  (** [os.getenv] of the API key *)
  w_api_key : option str;
  (** the HTTP POST, through whichever client [_select_http_impl] finds *)
  w_post : payload -> post_result;
  (** [json.loads(text)] followed by the path to the first choice's
      message content; [None] when any step raises or the content is not
      a string *)
  w_json_content : str -> option str;
  (** [str.lower] *)
  w_lower : str -> str
}.

(** A computation records its external calls and ends with a value or an
    exception. *)
Definition io (A : Type) : Type := list event * (exn + A).

Definition ret {A : Type} (a : A) : io A := ([], inr a).
Definition raise {A : Type} (e : exn) : io A := ([], inl e).
Definition emit (ev : event) : io unit := ([ev], inr tt).

Definition bind {A B : Type} (m : io A) (k : A -> io B) : io B :=
  match m with
  | (t, inl e) => (t, inl e)
  | (t, inr a) => let (t', r) := k a in (t ++ t', r)
  end.

(** A [try] block: the exception, if any, becomes a value. *)
Definition attempt {A : Type} (m : io A) : io (exn + A) :=
  let (t, r) := m in (t, inr r).

Notation "x <- m ;; k" := (bind m (fun x => k))
  (at level 61, m at next level, right associativity).
Notation "m ;;; k" := (bind m (fun _ => k))
  (at level 61, right associativity).

(** ** The diff collector *)

Definition _run_git (w : World) (args : list str) : io Z :=
  emit (RunGit args) ;;; ret (w_run_git w args).

Definition _capture_git (w : World) (args : list str) : io (Z * str * str) :=
  emit (CaptureGit args) ;;; ret (w_capture_git w args).

Definition diff_cached : list str := [lit "diff"; lit "--cached"].

(** The element appended after the kept lines; it starts with a
    newline. *)
Definition truncation_marker : str := LF :: lit "... (truncated) ...".

Definition _get_staged_diff (w : World) (max_lines : Z) : io str :=
  r <- _capture_git w diff_cached ;;
  let '(code, out, err) := r in
  if negb (code =? 0)%Z then
    raise (RuntimeError (DiffError
      match strip err with
      | [] => lit "failed to get staged diff"
      | text => text
      end))
  else
    match strip out with
    | [] => ret []
    | _ =>
        let lines := splitlines out in
        let lines :=
          if (Z.of_nat (length lines) >? max_lines)%Z
          then slice_to max_lines lines ++ [truncation_marker]
          else lines in
        ret (join [LF] lines)
    end.

(** ** The message generator *)

Definition _openai_chat_complete (w : World) (model : str)
    (messages : list (str * str)) : io str :=
  match w_api_key w with
  | None | Some [] => raise (RuntimeError MissingApiKey)
  | Some _ =>
      let p := {| p_model := model; p_messages := messages |} in
      emit (Post p) ;;;
      match w_post w p with
      | PostRaised => raise (RuntimeError RequestFailed)
      | PostReturned status text =>
          if ((status <? 200) || (status >=? 300))%Z then
            raise (RuntimeError (HttpError status))
          else
            match w_json_content w text with
            | Some content => ret (strip content)
            | None => raise (RuntimeError UnexpectedFormat)
            end
      end
  end.

Definition system_style_base : str :=
  lit "Write a short, clear, conventional git commit message. "
  ++ lit "Single-line subject only, <= 72 chars, present tense, no trailing period.".

Definition system_style_conventional : str :=
  lit " Use Conventional Commits format: type(scope?): subject.".

Definition user_prompt : str :=
  lit "Summarize the staged diff into a single-line commit subject. "
  ++ lit "Focus on intent and impact, not code details." ++ [LF; LF]
  ++ lit "DIFF:" ++ [LF].

Definition _generate_message (w : World) (diff provider model style : str)
  : io str :=
  if negb (str_eqb provider (lit "openai")) then
    raise (RuntimeError (UnsupportedProvider provider))
  else
    let system_style :=
      if startswith (w_lower w style) (lit "conventional")
      then system_style_base ++ system_style_conventional
      else system_style_base in
    let messages :=
      [ (lit "system", system_style); (lit "user", user_prompt ++ diff) ] in
    content <- _openai_chat_complete w model messages ;;
    match splitlines content with
    | [] => raise IndexError
    | line :: _ =>
        let first_line := strip line in
        let first_line :=
          if 120 <? length first_line
          then rstrip (firstn 120 first_line)
          else first_line in
        ret first_line
    end.

(** ** The entry point *)

Definition _get_config (w : World) : config := w_config w.

(** [main] returns the exit code; a [try] block is [attempt].  The clock
    readings around the generation are not modelled; nothing depends on
    them. *)
Definition main (w : World) (argv : list str) : io Z :=
  let (should_generate, passthrough) := _extract_commit_args argv in
  if negb should_generate then
    _run_git w argv
  else
    r <- attempt (_get_staged_diff w 500) ;;
    match r with
    | inl exc => emit (PrintErr (FailedToReadDiff exc)) ;;; ret 1%Z
    | inr diff =>
        match strip diff with
        | [] => emit (PrintErr NoStagedChanges) ;;; ret 1%Z
        | _ =>
            let cfg := _get_config w in
            emit (PrintOut Generating) ;;;
            r <- attempt (_generate_message w diff (provider cfg)
                            (model cfg) (style cfg)) ;;
            match r with
            | inl exc => emit (PrintErr (GenerationFailed exc)) ;;; ret 1%Z
            | inr message =>
                match strip message with
                | [] => emit (PrintErr EmptyMessage) ;;; ret 1%Z
                | _ =>
                    emit (PrintOut (ShowMessage message)) ;;;
                    let commit_args :=
                      passthrough ++ [short_flag; message] in
                    _run_git w commit_args
                end
            end
        end
    end.

(** The text-generation request was made. *)
Definition is_post (ev : event) : bool :=
  match ev with Post _ => true | _ => false end.

(** The endpoint answers every request with a 2xx status and a body
    whose first choice has the message content [raw]; an API key is
    set. *)
Definition replies (w : World) (raw : str) : Prop :=
  (exists c key, w_api_key w = Some (c :: key)) /\
  forall p, exists status text,
    w_post w p = PostReturned status text /\
    (200 <= status < 300)%Z /\
    w_json_content w text = Some raw.

(** ** The configuration *)

(** [_read_simple_rc] and [_get_config] as functions of what they read:
    the lines of the rc file and the environment.  [main] above takes
    their result from [w_config]. *)
Module Config.

(** A [Dict[str, str]], in insertion order; an assignment to a key that
    is present replaces its value in place. *)
Definition dict := list (str * str).

Fixpoint dict_get (d : dict) (key : str) : option str :=
  match d with
  | [] => None
  | (k, v) :: d' => if str_eqb k key then Some v else dict_get d' key
  end.

Fixpoint dict_set (d : dict) (key value : str) : dict :=
  match d with
  | [] => [(key, value)]
  | (k, v) :: d' =>
      if str_eqb k key then (key, value) :: d'
      else (k, v) :: dict_set d' key value
  end.

Definition hash : char := 35%N.
Definition colon : char := 58%N.

(** The colon is in [line]. *)
Definition has_colon (line : str) : bool :=
  existsb (fun c => (c =? colon)%N) line.

(** [line.split(colon, 1)] for a line that holds a colon: what is before
    the first colon and what is after it. *)
Fixpoint split_colon (line : str) : str * str :=
  match line with
  | [] => ([], [])
  | c :: rest =>
      if (c =? colon)%N then ([], rest)
      else let (key, value) := split_colon rest in (c :: key, value)
  end.

(** One round of the loop over the lines of the file. *)
Definition read_line (config : dict) (raw_line : str) : dict :=
  let line := strip raw_line in
  match line with
  | [] => config
  | _ =>
      if startswith line [hash] then config
      else if negb (has_colon line) then config
      else
        let (key, value) := split_colon line in
        let key := strip key in
        let value := strip value in
        match key with
        | [] => config
        | _ => dict_set config key value
        end
  end.

(** What opening and reading the file gives: no such file, or the lines
    read, and whether an exception other than [FileNotFoundError] ended
    the reading (at the opening or after these lines). *)
Inductive rc_file :=
  | FileNotFound
  | FileRead (lines : list str) (failed : bool).

(** The result is the dictionary and whether the warning was printed. *)
Definition _read_simple_rc (file : rc_file) : bool * dict :=
  match file with
  | FileNotFound => (false, [])
  | FileRead lines failed => (failed, fold_left read_line lines [])
  end.

(** [os.getenv(name, default)] *)
Definition getenv (env : str -> option str) (name default : str) : str :=
  match env name with
  | Some value => value
  | None => default
  end.

(** [rc.get(key, default)] *)
Definition rc_get (rc : dict) (key default : str) : str :=
  match dict_get rc key with
  | Some value => value
  | None => default
  end.

(** The three settings, and whether reading the rc file printed its
    warning. *)
Definition _get_config (env : str -> option str) (file : rc_file)
  : bool * config :=
  let (warned, rc) := _read_simple_rc file in
  (warned,
   {| provider :=
        getenv env (lit "NSCM_PROVIDER")
          (rc_get rc (lit "provider") (lit "openai"));
      model :=
        getenv env (lit "NSCM_MODEL")
          (rc_get rc (lit "model") (lit "gpt-4o-mini"));
      style :=
        getenv env (lit "NSCM_STYLE")
          (rc_get rc (lit "style") (lit "conventional")) |}).

(** A key as [read_line] stores it: not empty, trimmed, without a colon,
    not starting with the comment sign. *)
Definition is_key (key : str) : Prop :=
  key <> [] /\ strip key = key /\ has_colon key = false /\
  startswith key [hash] = false.

(** The line that sets [key] to [value]: key, colon, space, value,
    newline. *)
Definition setting_line (key value : str) : str :=
  key ++ [colon; 32%N] ++ value ++ [LF].

(** A line that [read_line] passes over: blank, a comment, without a
    colon, or with nothing but whitespace before its first colon. *)
Definition passed_over (raw_line : str) : Prop :=
  is_blank raw_line = true \/
  (exists ws rest, raw_line = ws ++ hash :: rest /\ is_blank ws = true) \/
  has_colon raw_line = false \/
  (exists ws rest, raw_line = ws ++ colon :: rest /\ is_blank ws = true).

(** The invariant of the dictionary that is read: keys as [is_key] has
    them, each once, and trimmed values. *)
Definition well_formed (d : dict) : Prop :=
  NoDup (map fst d) /\
  Forall (fun kv => is_key (fst kv) /\ strip (snd kv) = snd kv) d.

End Config.

(** ** Sample inputs *)

(** A first line of 150 characters: one space, then 149 letters. *)
Definition indented_line : str := lit " " ++ repeat 97%N 149.

Definition repeat_line (n : nat) : str :=
  concat (repeat (lit "x" ++ [LF]) n).

Definition sample_world (code : Z) (out : str) (reply : str) : World := {|
  w_run_git := fun _ => 0%Z;
  w_capture_git := fun _ => (code, out, []);
  w_config := {| provider := lit "openai"; model := lit "gpt-4o-mini";
                 style := lit "conventional" |};
  w_api_key := Some (lit "key");
  w_post := fun _ => PostReturned 200 reply;
  w_json_content := fun text => Some text;
  w_lower := fun s => s
|}.

(** * Properties *)

(** ** Runs of the model *)

Example run_status :
  main (sample_world 0 [] []) [lit "status"] =
  ([RunGit [lit "status"]], inr 0%Z).
Proof. reflexivity. Qed.

Example run_generate :
  main (sample_world 0 (lit "+x") (lit "feat(api): add retry logic"))
    [commit; short_flag; []] =
  ([CaptureGit diff_cached;
    PrintOut Generating;
    Post {| p_model := lit "gpt-4o-mini";
            p_messages :=
              [(lit "system",
                system_style_base ++ system_style_conventional);
               (lit "user", user_prompt ++ lit "+x")] |};
    PrintOut (ShowMessage (lit "feat(api): add retry logic"));
    RunGit [commit; short_flag; lit "feat(api): add retry logic"]],
   inr 0%Z).
Proof. vm_compute; reflexivity. Qed.

Example run_blank_reply :
  snd (_generate_message (sample_world 0 [] (lit "  " ++ [LF]))
         (lit "+x") (lit "openai") (lit "gpt-4o-mini") (lit "conventional"))
  = inl IndexError.
Proof. vm_compute; reflexivity. Qed.

Example run_other_provider :
  _generate_message (sample_world 0 [] []) (lit "+x") (lit "local")
    (lit "gpt-4o-mini") (lit "conventional")
  = ([], inl (RuntimeError (UnsupportedProvider (lit "local")))).
Proof. reflexivity. Qed.

Example splitlines_sample :
  splitlines (lit "ab" ++ [CR; LF] ++ lit "c" ++ [LF; LF; CR] ++ lit "d"
              ++ [LF])
  = [lit "ab"; lit "c"; []; []; lit "d"].
Proof. reflexivity. Qed.

Example strip_sample :
  strip (lit "  a b " ++ [LF]) = lit "a b".
Proof. reflexivity. Qed.

Example extract_not_commit :
  _extract_commit_args [lit "push"; short_flag; []] =
  (false, [lit "push"; short_flag; []]).
Proof. reflexivity. Qed.

Example extract_empty_message :
  _extract_commit_args [commit; lit "-a"; short_flag; []] =
  (true, [commit; lit "-a"]).
Proof. reflexivity. Qed.

Example extract_indexed :
  extract_loop_at 4 [lit "-a"; short_flag; []] 0 false [commit] =
  Some (true, [commit; lit "-a"]).
Proof. reflexivity. Qed.

(** ** Lists read two tokens at a time *)

Lemma list_ind2 {A : Type} (P : list A -> Prop) :
  P [] ->
  (forall a, P [a]) ->
  (forall a b l, P l -> P (b :: l) -> P (a :: b :: l)) ->
  forall l, P l.
Proof.
  intros Hnil Hone Hstep l.
  assert (H : P l /\ forall a, P (a :: l)).
  { induction l as [|b l [IH1 IH2]].
    - split; [exact Hnil | exact Hone].
    - split; [apply IH2 | intros a; apply Hstep; [exact IH1 | apply IH2]]. }
  exact (proj1 H).
Qed.

Lemma In_firstn {A : Type} (x : A) (n : nat) (l : list A) :
  In x (firstn n l) -> In x l.
Proof.
  revert l; induction n as [|n IH]; intros [|a l]; simpl; try tauto.
  intros [H|H]; [left; exact H | right; apply IH, H].
Qed.

Lemma subseq_refl {A : Type} (l : list A) : subseq l l.
Proof. induction l; constructor; assumption. Qed.

(** ** Strings *)

Lemma str_eqb_eq (s t : str) : str_eqb s t = true <-> s = t.
Proof.
  revert t; induction s as [|c s IH]; intros [|d t]; simpl;
    try (split; [discriminate | congruence]); try tauto.
  rewrite andb_true_iff, N.eqb_eq, IH.
  split; [intros [-> ->]; reflexivity | intros H; inversion H; auto].
Qed.

Lemma str_eqb_refl (s : str) : str_eqb s s = true.
Proof. apply str_eqb_eq; reflexivity. Qed.

Lemma is_linebreak_isspace (c : char) :
  is_linebreak c = true -> isspace c = true.
Proof.
  unfold is_linebreak, isspace.
  rewrite !orb_true_iff, !andb_true_iff, !N.leb_le, !N.eqb_eq.
  lia.
Qed.

Lemma lstrip_app (l m : str) :
  lstrip (l ++ m) = match lstrip l with [] => lstrip m | t => t ++ m end.
Proof.
  induction l as [|c l IH]; simpl.
  - destruct (lstrip m); reflexivity.
  - destruct (isspace c); [exact IH | reflexivity].
Qed.

Lemma lstrip_head (s : str) (c : char) (t : str) :
  lstrip s = c :: t -> isspace c = false.
Proof.
  induction s as [|d s IH]; simpl; [discriminate|].
  destruct (isspace d) eqn:E; [exact IH|].
  intros H; inversion H; subst; exact E.
Qed.

Lemma lstrip_fixed (c : char) (s : str) :
  isspace c = false -> lstrip (c :: s) = c :: s.
Proof. intros H; simpl; rewrite H; reflexivity. Qed.

Lemma lstrip_idem (s : str) : lstrip (lstrip s) = lstrip s.
Proof.
  destruct (lstrip s) as [|c t] eqn:E; [reflexivity|].
  apply lstrip_fixed, (lstrip_head _ _ _ E).
Qed.

Lemma lstrip_blank (s : str) : lstrip s = [] <-> is_blank s = true.
Proof.
  unfold is_blank; induction s as [|c s IH]; simpl; [tauto|].
  destruct (isspace c); simpl; [exact IH|].
  split; discriminate.
Qed.

Lemma rstrip_cons (c : char) (s : str) :
  rstrip (c :: s) =
  match rstrip s with
  | [] => if isspace c then [] else [c]
  | t => c :: t
  end.
Proof.
  unfold rstrip; simpl rev.
  rewrite lstrip_app.
  destruct (lstrip (rev s)) as [|d t] eqn:E; simpl.
  - destruct (isspace c); reflexivity.
  - rewrite rev_app_distr; simpl.
    destruct (rev t ++ [d]) eqn:E2; [|reflexivity].
    destruct (rev t); discriminate.
Qed.

Lemma rstrip_nil : rstrip [] = [].
Proof. reflexivity. Qed.

Lemma rstrip_blank (s : str) : rstrip s = [] <-> is_blank s = true.
Proof.
  unfold is_blank; induction s as [|c s IH]; [simpl; tauto|].
  rewrite rstrip_cons; simpl forallb.
  destruct (rstrip s) as [|d t] eqn:E.
  - destruct (isspace c); simpl.
    + rewrite <- IH; tauto.
    + split; discriminate.
  - rewrite andb_true_iff, <- IH.
    split; [discriminate | intros [_ H]; discriminate].
Qed.

Lemma rstrip_app (l m : str) :
  rstrip (l ++ m) = match rstrip m with [] => rstrip l | t => l ++ t end.
Proof.
  induction l as [|c l IH]; simpl.
  - destruct (rstrip m); reflexivity.
  - rewrite !rstrip_cons, IH.
    destruct (rstrip m) as [|d t]; [reflexivity|].
    destruct l; reflexivity.
Qed.

Lemma rstrip_head (c : char) (s : str) :
  isspace c = false -> exists t, rstrip (c :: s) = c :: t.
Proof.
  intros H; rewrite rstrip_cons, H.
  destruct (rstrip s); eauto.
Qed.

Lemma rstrip_split (s : str) :
  exists w, s = rstrip s ++ w /\ is_blank w = true.
Proof.
  induction s as [|c s [w [Hs Hw]]]; [exists []; split; reflexivity|].
  rewrite rstrip_cons.
  destruct (rstrip s) as [|d t] eqn:E.
  - destruct (isspace c) eqn:Ec.
    + exists (c :: s); split; [reflexivity|].
      unfold is_blank; simpl; rewrite Ec; apply rstrip_blank, E.
    + exists w; split; [simpl in *; congruence | exact Hw].
  - exists w; split; [simpl in *; congruence | exact Hw].
Qed.

Lemma rstrip_app_blank (l w : str) :
  is_blank w = true -> rstrip (l ++ w) = rstrip l.
Proof.
  intros H; rewrite rstrip_app.
  apply rstrip_blank in H; rewrite H; reflexivity.
Qed.

Lemma rstrip_idem (s : str) : rstrip (rstrip s) = rstrip s.
Proof.
  destruct (rstrip_split s) as [w [Hs Hw]].
  rewrite Hs at 2.
  rewrite rstrip_app_blank by exact Hw; reflexivity.
Qed.

Lemma is_blank_firstn (n : nat) (w : str) :
  is_blank w = true -> is_blank (firstn n w) = true.
Proof.
  unfold is_blank; revert n; induction w as [|c w IH]; intros [|n]; simpl;
    auto.
  rewrite !andb_true_iff; intros [H1 H2]; auto.
Qed.

(** Cutting after trimming the right end, or cutting first, leaves the
    same text once the right end is trimmed again. *)
Lemma rstrip_firstn_rstrip (n : nat) (s : str) :
  rstrip (firstn n (rstrip s)) = rstrip (firstn n s).
Proof.
  destruct (rstrip_split s) as [w [Hs Hw]].
  rewrite Hs at 2.
  rewrite firstn_app, rstrip_app_blank; [reflexivity|].
  apply is_blank_firstn, Hw.
Qed.

Lemma strip_blank (s : str) : strip s = [] <-> is_blank s = true.
Proof.
  unfold strip; rewrite rstrip_blank.
  destruct (lstrip s) as [|c t] eqn:E.
  - split; intros _; [apply lstrip_blank, E | reflexivity].
  - pose proof (lstrip_head _ _ _ E) as Hc.
    split.
    + unfold is_blank; simpl; rewrite Hc; discriminate.
    + intros H; apply lstrip_blank in H; congruence.
Qed.

Lemma strip_head (s : str) :
  strip s = [] \/ exists c t, strip s = c :: t /\ isspace c = false.
Proof.
  unfold strip; destruct (lstrip s) as [|c t] eqn:E; [left; reflexivity|].
  right; pose proof (lstrip_head _ _ _ E) as Hc.
  destruct (@rstrip_head c t Hc) as [u Hu]; eauto.
Qed.

Lemma In_lstrip (x : char) (s : str) : In x (lstrip s) -> In x s.
Proof.
  induction s as [|c s IH]; simpl; [tauto|].
  destruct (isspace c); [intros H; right; exact (IH H) | intros H; exact H].
Qed.

Lemma In_rstrip (x : char) (s : str) : In x (rstrip s) -> In x s.
Proof.
  unfold rstrip; intros H.
  apply in_rev, In_lstrip, in_rev in H; exact H.
Qed.

Lemma In_strip (x : char) (s : str) : In x (strip s) -> In x s.
Proof. intros H; apply In_lstrip, In_rstrip, H. Qed.

Lemma length_lstrip (s : str) : length (lstrip s) <= length s.
Proof.
  induction s as [|c s IH]; simpl; [lia|].
  destruct (isspace c); simpl; lia.
Qed.

Lemma length_rstrip (s : str) : length (rstrip s) <= length s.
Proof.
  unfold rstrip; rewrite length_rev.
  etransitivity; [apply length_lstrip|]; rewrite length_rev; lia.
Qed.

(** ** Lines *)

Lemma one_line_forall (s : str) :
  one_line s = true <-> forall x, In x s -> is_linebreak x = false.
Proof.
  unfold one_line; rewrite forallb_forall.
  split; intros H x Hx; specialize (H x Hx).
  - apply negb_true_iff, H.
  - apply negb_true_iff, H.
Qed.

Lemma one_line_sub (s s' : str) :
  (forall x, In x s' -> In x s) -> one_line s = true -> one_line s' = true.
Proof.
  rewrite !one_line_forall; intros Hsub H x Hx; apply H, Hsub, Hx.
Qed.

Lemma one_line_app (s t : str) :
  one_line (s ++ t) = one_line s && one_line t.
Proof. apply forallb_app. Qed.

Lemma not_space_not_linebreak (c : char) :
  isspace c = false -> is_linebreak c = false.
Proof.
  intros H; destruct (is_linebreak c) eqn:E; [|reflexivity].
  apply is_linebreak_isspace in E; congruence.
Qed.

Lemma splitlines_from_app (l : str) :
  one_line l = true ->
  forall cur s, splitlines_from cur (l ++ s) = splitlines_from (cur ++ l) s.
Proof.
  induction l as [|c l IH]; intros Hl cur s; simpl.
  - rewrite app_nil_r; reflexivity.
  - simpl in Hl; apply andb_true_iff in Hl; destruct Hl as [Hc Hl].
    apply negb_true_iff in Hc; rewrite Hc.
    rewrite (IH Hl), <- app_assoc; reflexivity.
Qed.

Lemma splitlines_from_LF (cur s : str) :
  splitlines_from cur (LF :: s) = cur :: splitlines_from [] s.
Proof. destruct s; reflexivity. Qed.

Lemma splitlines_from_break (cur : str) (b : char) (s : str) :
  is_linebreak b = true -> exists ls, splitlines_from cur (b :: s) = cur :: ls.
Proof. intros H; simpl; rewrite H; eauto. Qed.

Lemma splitlines_one_line (l : str) :
  one_line l = true -> l <> [] -> splitlines l = [l].
Proof.
  intros Hl Hne; unfold splitlines.
  rewrite <- (app_nil_r l) at 1.
  rewrite (splitlines_from_app l Hl); simpl.
  destruct l; [congruence | reflexivity].
Qed.

(** The first line that is read starts with what was already read. *)
Lemma splitlines_from_first (s : str) :
  forall cur, cur <> [] ->
  exists u ls, splitlines_from cur s = (cur ++ u) :: ls /\ one_line u = true.
Proof.
  induction s as [|c s IH]; intros cur Hcur; simpl.
  - exists [], []; rewrite app_nil_r; destruct cur; [congruence | auto].
  - destruct (is_linebreak c) eqn:Ec.
    + exists []; rewrite app_nil_r; eauto.
    + destruct (IH (cur ++ [c])) as [u [ls [H1 H2]]].
      { destruct cur; discriminate. }
      exists (c :: u), ls; rewrite H1, <- app_assoc; split; [reflexivity|].
      simpl; rewrite Ec; exact H2.
Qed.

(** No line of [splitlines] holds a line boundary. *)
Lemma splitlines_from_lines (s : str) :
  forall cur, one_line cur = true ->
  Forall (fun l => one_line l = true) (splitlines_from cur s).
Proof.
  induction s as [| a | a b s IH1 IH2] using list_ind2; intros cur Hcur.
  - simpl; destruct cur; auto.
  - simpl; destruct (is_linebreak a) eqn:Ea.
    + auto.
    + assert (H : one_line (cur ++ [a]) = true)
        by (rewrite one_line_app, Hcur; simpl; rewrite Ea; reflexivity).
      destruct (cur ++ [a]); auto.
  - cbn [splitlines_from]; destruct (is_linebreak a) eqn:Ea.
    + constructor; [exact Hcur|].
      destruct ((a =? CR)%N && (b =? LF)%N); [apply IH1 | apply IH2];
        reflexivity.
    + apply IH2.
      rewrite one_line_app, Hcur; simpl; rewrite Ea; reflexivity.
Qed.

Lemma splitlines_lines (s : str) :
  Forall (fun l => one_line l = true) (splitlines s).
Proof. apply splitlines_from_lines; reflexivity. Qed.

(** ** The generated subject *)

(** The guardrail of [_generate_message] on the trimmed first line. *)
Lemma guardrail_invariant (c : char) (u : str) :
  isspace c = false ->
  one_line (c :: u) = true ->
  let first_line := strip (c :: u) in
  let result :=
    if 120 <? length first_line then rstrip (firstn 120 first_line)
    else first_line in
  result <> [] /\ length result <= 120 /\ one_line result = true.
Proof.
  intros Hc Hl first_line result.
  assert (Hfl : exists v, first_line = c :: v).
  { unfold first_line, strip; rewrite (lstrip_fixed c u Hc).
    apply rstrip_head, Hc. }
  destruct Hfl as [v Hv].
  assert (Hin : forall x, In x first_line -> In x (c :: u))
    by (intros x; apply In_strip).
  unfold result; destruct (120 <? length first_line) eqn:E.
  - rewrite Hv; change (firstn 120 (c :: v)) with (c :: firstn 119 v).
    destruct (rstrip_head c (firstn 119 v) Hc) as [t Ht].
    split; [rewrite Ht; discriminate|].
    split.
    + etransitivity; [apply length_rstrip|].
      cbn [length]; rewrite length_firstn; lia.
    + apply (one_line_sub (c :: u)); [|exact Hl].
      intros x Hx; apply Hin; rewrite Hv.
      apply In_rstrip in Hx.
      change (c :: firstn 119 v) with (firstn 120 (c :: v)) in Hx.
      apply (In_firstn _ _ _ Hx).
  - apply Nat.ltb_ge in E.
    split; [rewrite Hv; discriminate|].
    split; [exact E|].
    apply (one_line_sub (c :: u)); assumption.
Qed.

(** What [_openai_chat_complete] returns has been trimmed. *)
Lemma openai_returns_trimmed (w : World) (model : str)
    (messages : list (str * str)) (t : list event) (content : str) :
  _openai_chat_complete w model messages = (t, inr content) ->
  exists raw, content = strip raw.
Proof.
  unfold _openai_chat_complete.
  destruct (w_api_key w) as [[|k key]|]; try discriminate.
  unfold bind, emit, raise, ret.
  destruct (w_post w _) as [|status text]; [discriminate|].
  destruct ((status <? 200)%Z || (status >=? 300)%Z); [discriminate|].
  destruct (w_json_content w text) as [raw|]; [|discriminate].
  intros H; inversion H; eauto.
Qed.

Lemma openai_replies (w : World) (model : str)
    (messages : list (str * str)) (raw : str) :
  replies w raw ->
  _openai_chat_complete w model messages =
  ([Post {| p_model := model; p_messages := messages |}], inr (strip raw)).
Proof.
  intros [[k [key Hkey]] Hpost].
  unfold _openai_chat_complete; rewrite Hkey.
  destruct (Hpost {| p_model := model; p_messages := messages |})
    as [status [text [H1 [H2 H3]]]].
  unfold bind, emit, raise, ret; rewrite H1.
  replace ((status <? 200)%Z || (status >=? 300)%Z) with false by lia.
  rewrite H3; reflexivity.
Qed.

(** The first line of the trimmed content, trimmed again, is the trimmed
    first line of the content as it came. *)
Lemma first_line_trimmed (L : str) (b : char) (rest : str) :
  one_line L = true ->
  is_blank L = false ->
  is_linebreak b = true ->
  exists line ls,
    splitlines (strip (L ++ b :: rest)) = line :: ls /\
    strip line = strip L.
Proof.
  intros HL Hnb Hb.
  destruct (lstrip L) as [|c x] eqn:EX.
  { apply lstrip_blank in EX; congruence. }
  pose proof (lstrip_head _ _ _ EX) as Hc.
  assert (HX : one_line (c :: x) = true).
  { apply (one_line_sub L); [|exact HL].
    intros y Hy; apply In_lstrip; rewrite EX; exact Hy. }
  unfold strip at 1; rewrite lstrip_app, EX.
  change ((c :: x) ++ b :: rest) with ((c :: x) ++ (b :: rest)).
  rewrite rstrip_app.
  destruct (rstrip (b :: rest)) as [|d t] eqn:Et.
  - destruct (rstrip_head c x Hc) as [v Hv].
    exists (rstrip (c :: x)), []; split.
    + apply splitlines_one_line; [|rewrite Hv; discriminate].
      apply (one_line_sub (c :: x)); [intros y; apply In_rstrip | exact HX].
    + unfold strip; rewrite Hv, (lstrip_fixed c v Hc), <- Hv, EX.
      apply rstrip_idem.
  - assert (Hd : d = b).
    { rewrite rstrip_cons in Et.
      destruct (rstrip rest); [destruct (isspace b)|]; congruence. }
    subst d; unfold splitlines.
    rewrite (splitlines_from_app (c :: x) HX); simpl app.
    destruct (splitlines_from_break (c :: x) b t Hb) as [ls Hls].
    exists (c :: x), ls; split; [exact Hls|].
    unfold strip; rewrite <- EX, lstrip_idem; reflexivity.
Qed.

Lemma generate_replies (w : World) (diff model style raw : str) :
  replies w raw ->
  exists t,
    _generate_message w diff (lit "openai") model style =
    (t, match splitlines (strip raw) with
        | [] => inl IndexError
        | line :: _ =>
            inr (if 120 <? length (strip line)
                 then rstrip (firstn 120 (strip line))
                 else strip line)
        end).
Proof.
  intros Hw; unfold _generate_message.
  rewrite str_eqb_refl; cbn [negb].
  match goal with
  | |- context [_openai_chat_complete w model ?m] =>
      rewrite (openai_replies w model m raw Hw)
  end.
  unfold bind, raise, ret.
  destruct (splitlines (strip raw)); eauto.
Qed.

(** C3.  Whenever [_generate_message] returns a subject (rather than
    raising), the subject is not empty, has at most 120 characters and
    holds no newline; it holds no line boundary of any kind. *)
Theorem generated_subject_invariant (w : World)
    (diff provider model style : str) (t : list event) (message : str) :
  _generate_message w diff provider model style = (t, inr message) ->
  message <> [] /\ length message <= 120 /\ ~ In LF message
  /\ one_line message = true.
Proof.
  unfold _generate_message.
  destruct (negb (str_eqb provider (lit "openai"))); [discriminate|].
  unfold bind.
  destruct (_openai_chat_complete w model _) as [t0 [e|content]] eqn:E;
    [discriminate|].
  apply openai_returns_trimmed in E; destruct E as [raw ->].
  destruct (splitlines (strip raw)) as [|line ls] eqn:Es; [discriminate|].
  unfold ret; intros H; inversion H; subst; clear H.
  destruct (strip_head raw) as [Hr|[c [s [Hr Hc]]]];
    rewrite Hr in Es; [discriminate|].
  unfold splitlines in Es; simpl in Es.
  rewrite (not_space_not_linebreak c Hc) in Es.
  destruct (splitlines_from_first s [c]) as [u [ls' [H1 H2]]];
    [discriminate|].
  rewrite H1 in Es; inversion Es; subst; clear Es.
  assert (Hl : one_line (c :: u) = true)
    by (simpl; rewrite (not_space_not_linebreak c Hc); exact H2).
  destruct (guardrail_invariant c u Hc Hl) as [G1 [G2 G3]].
  repeat split; try assumption.
  intros Hin; rewrite one_line_forall in G3.
  specialize (G3 LF Hin); discriminate.
Qed.

Lemma generated_subject_invariant_witness :
  lit "feat: x" <> [] /\ length (lit "feat: x") <= 120
  /\ ~ In LF (lit "feat: x") /\ one_line (lit "feat: x") = true.
Proof.
  eapply (generated_subject_invariant
            (sample_world 0 [] (lit "  feat: x  " ++ LF :: lit "more"))
            (lit "diff") (lit "openai") (lit "gpt-4o-mini")
            (lit "conventional")).
  vm_compute; reflexivity.
Defined.

(** C4, as the code has it.  For a response of several lines whose first
    line has 150 characters, not all of them whitespace, the subject is
    the first 120 characters of the trimmed first line, with the right
    end trimmed again.  When the first line does not start with
    whitespace, that is the first 120 characters of the line itself with
    the right end trimmed. *)
Theorem subject_of_long_first_line (w : World) (diff model style : str)
    (L : str) (b : char) (rest : str) :
  replies w (L ++ b :: rest) ->
  one_line L = true ->
  is_linebreak b = true ->
  length L = 150 ->
  is_blank L = false ->
  exists t,
    _generate_message w diff (lit "openai") model style =
    (t, inr (rstrip (firstn 120 (strip L))))
    /\ (starts_with_space L = false ->
        _generate_message w diff (lit "openai") model style =
        (t, inr (rstrip (firstn 120 L)))).
Proof.
  intros Hw HL Hb Hlen Hnb.
  destruct (generate_replies w diff model style _ Hw) as [t Ht].
  destruct (first_line_trimmed L b rest HL Hnb Hb) as [line [ls [H1 H2]]].
  rewrite H1, H2 in Ht.
  assert (Hres : (if 120 <? length (strip L)
                  then rstrip (firstn 120 (strip L)) else strip L)
                 = rstrip (firstn 120 (strip L))).
  { destruct (120 <? length (strip L)) eqn:E; [reflexivity|].
    apply Nat.ltb_ge in E; rewrite (firstn_all2 _ E).
    unfold strip; rewrite rstrip_idem; reflexivity. }
  rewrite Hres in Ht; exists t; split; [exact Ht|].
  intros Hs; rewrite Ht; do 2 f_equal.
  assert (HlL : lstrip L = L).
  { destruct L as [|c u]; [reflexivity|].
    apply lstrip_fixed; exact Hs. }
  unfold strip; rewrite HlL; apply rstrip_firstn_rstrip.
Qed.

Lemma subject_of_long_first_line_witness :
  exists t,
    _generate_message
      (sample_world 0 [] (repeat 97%N 150 ++ LF :: lit "body"))
      (lit "diff") (lit "openai") (lit "gpt-4o-mini") (lit "conventional")
    = (t, inr (rstrip (firstn 120 (strip (repeat 97%N 150)))))
    /\ (starts_with_space (repeat 97%N 150) = false ->
        _generate_message
          (sample_world 0 [] (repeat 97%N 150 ++ LF :: lit "body"))
          (lit "diff") (lit "openai") (lit "gpt-4o-mini")
          (lit "conventional")
        = (t, inr (rstrip (firstn 120 (repeat 97%N 150))))).
Proof.
  apply (subject_of_long_first_line
           (sample_world 0 [] (repeat 97%N 150 ++ LF :: lit "body"))
           (lit "diff") (lit "gpt-4o-mini") (lit "conventional")
           (repeat 97%N 150) LF (lit "body")).
  - split; [exists 107%N, (lit "ey"); reflexivity|].
    intros p; exists 200%Z, (repeat 97%N 150 ++ LF :: lit "body").
    split; [reflexivity | split; [lia | reflexivity]].
  - vm_compute; reflexivity.
  - reflexivity.
  - vm_compute; reflexivity.
  - vm_compute; reflexivity.
Defined.

(** C4 as stated fails when the 150-character first line starts with
    whitespace: the leading space is trimmed before the cut, so the
    subject is 120 letters, while the first 120 characters of the line
    are the space and 119 letters. *)
Lemma subject_of_long_first_line_counterexample :
  one_line indented_line = true /\
  length indented_line = 150 /\
  snd (_generate_message
         (sample_world 0 [] (indented_line ++ LF :: lit "body"))
         (lit "diff") (lit "openai") (lit "gpt-4o-mini")
         (lit "conventional"))
  = inr (repeat 97%N 120) /\
  rstrip (firstn 120 indented_line) = 32%N :: repeat 97%N 119 /\
  repeat 97%N 120 <> rstrip (firstn 120 indented_line).
Proof.
  repeat split; try (vm_compute; reflexivity).
  vm_compute; discriminate.
Qed.

(** ** The classifier's loop *)

Lemma is_empty_message_not_flag (v : str) :
  is_empty_message v = true -> is_message_flag v = false.
Proof.
  unfold is_empty_message; rewrite !orb_true_iff, !str_eqb_eq.
  intros [[->| ->]| ->]; reflexivity.
Qed.

Lemma is_message_flag_not_empty (f : str) :
  is_message_flag f = true -> is_empty_message f = false.
Proof.
  intros H; destruct (is_empty_message f) eqn:E; [|reflexivity].
  apply is_empty_message_not_flag in E; congruence.
Qed.

Lemma commit_not_flag : is_message_flag commit = false.
Proof. reflexivity. Qed.

(** One round of the loop, by the kind of its first token. *)
Lemma extract_loop_flag (args rest : list str) (a b : str) sg cl :
  is_message_flag a = true ->
  extract_loop args (a :: b :: rest) sg cl =
  if is_empty_message b then extract_loop args rest true cl
  else (false, commit :: args).
Proof. intros H; simpl; rewrite H; reflexivity. Qed.

Lemma extract_loop_plain (args rest : list str) (a : str) sg cl :
  is_message_flag a = false ->
  extract_loop args (a :: rest) sg cl =
  extract_loop args rest sg (cl ++ [a]).
Proof. intros H; simpl; rewrite H; reflexivity. Qed.

Lemma kept_flag (rest : list str) (a b : str) :
  is_message_flag a = true ->
  kept (a :: b :: rest) = if is_empty_message b then kept rest else None.
Proof. intros H; simpl; rewrite H; reflexivity. Qed.

Lemma kept_plain_cons (rest : list str) (a : str) :
  is_message_flag a = false ->
  kept (a :: rest) = option_map (cons a) (kept rest).
Proof. intros H; simpl; rewrite H; reflexivity. Qed.

Lemma existsb_cons (f : str -> bool) (a : str) (l : list str) :
  existsb f (a :: l) = f a || existsb f l.
Proof. reflexivity. Qed.

(** The loop either meets a message with a real value, and hands back
    the original arguments, or reaches the end with the tokens of
    [kept]. *)
Lemma extract_loop_kept (args rest : list str) :
  forall should_generate cleaned,
  extract_loop args rest should_generate cleaned =
  match kept rest with
  | None => (false, commit :: args)
  | Some k =>
      (should_generate || existsb is_message_flag rest, cleaned ++ k)
  end.
Proof.
  induction rest as [| a | a b rest IH1 IH2] using list_ind2;
    intros sg cl.
  - simpl; rewrite orb_false_r, app_nil_r; reflexivity.
  - simpl; destruct (is_message_flag a); simpl.
    + rewrite orb_true_r, app_nil_r; reflexivity.
    + rewrite orb_false_r; reflexivity.
  - destruct (is_message_flag a) eqn:Ea.
    + rewrite (extract_loop_flag _ _ _ _ _ _ Ea), (kept_flag _ _ _ Ea).
      destruct (is_empty_message b); [|reflexivity].
      rewrite IH1; destruct (kept rest); [|reflexivity].
      rewrite existsb_cons, Ea, orb_true_r; reflexivity.
    + rewrite (extract_loop_plain _ _ _ _ _ Ea), (kept_plain_cons _ _ Ea).
      rewrite IH2; destruct (kept (b :: rest)); [|reflexivity].
      rewrite (existsb_cons _ a), Ea, <- app_assoc; reflexivity.
Qed.

Lemma extract_commit (args : list str) :
  _extract_commit_args (commit :: args) =
  match kept args with
  | None => (false, commit :: args)
  | Some k => (existsb is_message_flag args, commit :: k)
  end.
Proof.
  unfold _extract_commit_args; rewrite str_eqb_refl; cbn [negb].
  rewrite extract_loop_kept; reflexivity.
Qed.

Lemma has_real_message_step (a b : str) (rest : list str) :
  has_real_message (a :: b :: rest) =
  (is_message_flag a && negb (is_empty_message b))
  || has_real_message (b :: rest).
Proof. reflexivity. Qed.

Lemma has_real_message_cons (a : str) (rest : list str) :
  is_message_flag a = false ->
  has_real_message (a :: rest) = has_real_message rest.
Proof.
  intros Ha; destruct rest as [|b rest]; [reflexivity|].
  cbn [has_real_message]; rewrite Ha; reflexivity.
Qed.

Lemma has_real_message_tail (a : str) (rest : list str) :
  has_real_message (a :: rest) = false -> has_real_message rest = false.
Proof.
  destruct rest as [|b rest]; [reflexivity|].
  cbn [has_real_message]; intros H; apply orb_false_iff in H; tauto.
Qed.

Lemma has_real_message_plain_prefix (pre rest : list str) :
  existsb is_message_flag pre = false ->
  has_real_message (pre ++ rest) = has_real_message rest.
Proof.
  induction pre as [|a pre IH]; intros H; [reflexivity|].
  simpl in H; apply orb_false_iff in H; destruct H as [Ha Hpre].
  simpl app; rewrite (has_real_message_cons _ _ Ha); auto.
Qed.

Lemma has_real_message_at (pre post : list str) (f v : str) :
  is_message_flag f = true -> is_empty_message v = false ->
  has_real_message (pre ++ f :: v :: post) = true.
Proof.
  intros Hf Hv; induction pre as [|a pre IH].
  - simpl; rewrite Hf, Hv; reflexivity.
  - simpl app; destruct (pre ++ f :: v :: post) eqn:E.
    + destruct pre; discriminate.
    + rewrite has_real_message_step, IH; apply orb_true_r.
Qed.

(** [has_real_message] says what its name says. *)
Lemma has_real_message_spec (args : list str) :
  has_real_message args = true <->
  exists pre f v post,
    args = pre ++ f :: v :: post /\
    is_message_flag f = true /\ is_empty_message v = false.
Proof.
  split.
  - induction args as [|a rest IH]; [discriminate|].
    destruct rest as [|b rest]; [discriminate|].
    cbn [has_real_message]; intros H; apply orb_true_iff in H.
    destruct H as [H|H].
    + apply andb_true_iff in H; destruct H as [Ha Hb].
      apply negb_true_iff in Hb.
      exists [], a, b, rest; auto.
    + destruct (IH H) as [pre [f [v [post [E [Hf Hv]]]]]].
      exists (a :: pre), f, v, post; rewrite E; auto.
  - intros [pre [f [v [post [-> [Hf Hv]]]]]].
    apply has_real_message_at; assumption.
Qed.

Lemma has_real_message_flag (a b : str) (rest : list str) :
  is_message_flag a = true ->
  has_real_message (a :: b :: rest) =
  negb (is_empty_message b) || has_real_message (b :: rest).
Proof. intros H; rewrite has_real_message_step, H; reflexivity. Qed.

Lemma kept_has_real_message (rest : list str) :
  kept rest = None <-> has_real_message rest = true.
Proof.
  induction rest as [| a | a b rest IH1 IH2] using list_ind2.
  - simpl; split; discriminate.
  - simpl; destruct (is_message_flag a); simpl; split; discriminate.
  - destruct (is_message_flag a) eqn:Ea.
    + rewrite (kept_flag _ _ _ Ea), (has_real_message_flag _ _ _ Ea).
      destruct (is_empty_message b) eqn:Eb; cbn [negb orb].
      * rewrite (has_real_message_cons _ _ (is_empty_message_not_flag _ Eb)).
        exact IH1.
      * tauto.
    + rewrite (kept_plain_cons _ _ Ea).
      rewrite (has_real_message_cons _ _ Ea), <- IH2.
      destruct (kept (b :: rest)); simpl; split; congruence.
Qed.

Lemma kept_plain (args : list str) :
  existsb is_message_flag args = false -> kept args = Some args.
Proof.
  induction args as [|a args IH]; [reflexivity|].
  simpl; intros H; apply orb_false_iff in H; destruct H as [Ha Hr].
  rewrite Ha, (IH Hr); reflexivity.
Qed.

(** What the loop keeps: no message flag, a subsequence of what it read,
    every plain token, and exactly the tokens that [drop_messages]
    leaves. *)
Lemma kept_sound (rest : list str) :
  forall k, kept rest = Some k ->
  Forall (fun a => is_message_flag a = false) k /\
  subseq k rest /\
  filter is_plain k = filter is_plain rest /\
  k = drop_messages false rest.
Proof.
  induction rest as [| a | a b rest IH1 IH2] using list_ind2; intros k.
  - simpl; intros H; inversion H; repeat split; constructor.
  - unfold is_plain; simpl; destruct (is_message_flag a) eqn:Ea; simpl;
      intros H; inversion H; subst; simpl; rewrite ?Ea; simpl.
    + repeat split; repeat constructor.
    + repeat split; repeat constructor; exact Ea.
  - destruct (is_message_flag a) eqn:Ea.
    + rewrite (kept_flag _ _ _ Ea).
      destruct (is_empty_message b) eqn:Eb; [|discriminate].
      intros H; destruct (IH1 k H) as [H1 [H2 [H3 H4]]].
      pose proof (is_empty_message_not_flag _ Eb) as Hb.
      repeat split.
      * exact H1.
      * do 2 apply subseq_skip; exact H2.
      * rewrite H3; unfold is_plain; cbn [filter].
        rewrite Ea, Eb, Hb; reflexivity.
      * rewrite H4; cbn [drop_messages]; rewrite Ea, Hb; reflexivity.
    + rewrite (kept_plain_cons _ _ Ea).
      destruct (kept (b :: rest)) as [k'|] eqn:Ek; [|discriminate].
      simpl; intros H; inversion H; subst; clear H.
      destruct (IH2 k' eq_refl) as [H1 [H2 [H3 H4]]].
      repeat split.
      * constructor; assumption.
      * apply subseq_keep; exact H2.
      * change (filter is_plain (a :: b :: rest))
          with (if is_plain a then a :: filter is_plain (b :: rest)
                else filter is_plain (b :: rest)).
        change (filter is_plain (a :: k'))
          with (if is_plain a then a :: filter is_plain k'
                else filter is_plain k').
        rewrite H3; reflexivity.
      * rewrite H4; cbn [drop_messages]; rewrite Ea; reflexivity.
Qed.

(** Taking an empty message out of the arguments does not change what
    the loop keeps, as long as no message has a real value. *)
Lemma kept_without_empty_message (post : list str) (f v : str) :
  is_message_flag f = true -> is_empty_message v = true ->
  forall pre,
  has_real_message (pre ++ f :: v :: post) = false ->
  kept (pre ++ f :: v :: post) = kept (pre ++ post).
Proof.
  intros Hf Hv pre.
  induction pre as [| a | a b pre IH1 IH2] using list_ind2; intros Hr.
  - simpl app; rewrite (kept_flag _ _ _ Hf), Hv; reflexivity.
  - simpl app in *.
    destruct (is_message_flag a) eqn:Ea.
    + rewrite (has_real_message_flag _ _ _ Ea) in Hr.
      rewrite (is_message_flag_not_empty _ Hf) in Hr; discriminate.
    + rewrite !(kept_plain_cons _ _ Ea), (kept_flag _ _ _ Hf), Hv.
      reflexivity.
  - simpl app in *.
    pose proof (has_real_message_tail _ _ Hr) as Hr1.
    destruct (is_message_flag a) eqn:Ea.
    + rewrite (has_real_message_flag _ _ _ Ea) in Hr.
      apply orb_false_iff in Hr; destruct Hr as [Hb _].
      apply negb_false_iff in Hb.
      rewrite !(kept_flag _ _ _ Ea), Hb.
      apply IH1, (has_real_message_tail _ _ Hr1).
    + rewrite !(kept_plain_cons _ _ Ea).
      rewrite (IH2 Hr1); reflexivity.
Qed.

Lemma skipn_nth (args : list str) (i : nat) :
  i < length args -> skipn i args = nth i args [] :: skipn (i + 1) args.
Proof.
  revert i; induction args as [|a args IH]; intros i Hi; simpl in Hi;
    [lia|].
  destruct i as [|i]; [reflexivity|].
  simpl; apply IH; lia.
Qed.

(** The loop written with an index computes what [extract_loop] does,
    given fuel for every token that is left. *)
Lemma extract_loop_at_correct (args : list str) (fuel : nat) :
  forall i should_generate cleaned,
  length args - i < fuel ->
  extract_loop_at fuel args i should_generate cleaned =
  Some (extract_loop args (skipn i args) should_generate cleaned).
Proof.
  induction fuel as [|fuel IH]; intros i sg cl Hf.
  - lia.
  - cbn [extract_loop_at].
    destruct (i <? length args) eqn:Ei.
    + apply Nat.ltb_lt in Ei.
      rewrite (skipn_nth args i Ei); cbn [extract_loop].
      destruct (is_message_flag (nth i args [])).
      * destruct (i + 1 <? length args) eqn:Ei1.
        -- apply Nat.ltb_lt in Ei1.
           rewrite (skipn_nth args (i + 1) Ei1).
           destruct (is_empty_message (nth (i + 1) args []));
             [|reflexivity].
           replace (i + 1 + 1) with (i + 2) by lia.
           apply IH; lia.
        -- apply Nat.ltb_ge in Ei1.
           rewrite (skipn_all2 args) by lia.
           rewrite IH by lia.
           rewrite (skipn_all2 args) by lia; reflexivity.
      * apply IH; lia.
    + apply Nat.ltb_ge in Ei.
      rewrite skipn_all2 by lia; reflexivity.
Qed.

(** One unit of fuel per token and one for the last test is enough: the
    indexed loop ends, with the result of [_extract_commit_args]. *)
Lemma extract_loop_at_total (args : list str) :
  extract_loop_at (S (length args)) args 0 false [commit] =
  Some (_extract_commit_args (commit :: args)).
Proof.
  rewrite extract_loop_at_correct by lia.
  unfold _extract_commit_args; rewrite str_eqb_refl; reflexivity.
Qed.

(** ** The classifier *)

(** C6.  A commit invocation in which a message flag carries a value that
    is neither empty nor a bare quotation mark is not a request to
    generate, and the arguments come back unchanged. *)
Theorem real_message_passes_through (pre post : list str) (f v : str) :
  is_message_flag f = true ->
  is_empty_message v = false ->
  _extract_commit_args (commit :: pre ++ f :: v :: post) =
  (false, commit :: pre ++ f :: v :: post).
Proof.
  intros Hf Hv; rewrite extract_commit.
  pose proof (has_real_message_at pre post f v Hf Hv) as H.
  apply kept_has_real_message in H; rewrite H; reflexivity.
Qed.

Lemma real_message_passes_through_witness :
  _extract_commit_args
    (commit :: [lit "-a"] ++ short_flag :: lit "fix typo" :: [lit "-v"]) =
  (false, commit :: [lit "-a"] ++ short_flag :: lit "fix typo" :: [lit "-v"]).
Proof.
  apply (real_message_passes_through [lit "-a"] [lit "-v"] short_flag
           (lit "fix typo")); reflexivity.
Defined.

(** C1 as stated fails: the first message flag carries the empty string,
    a later one a real message, and the classifier answers [false] with
    the original arguments. *)
Lemma first_message_flag_counterexample :
  _extract_commit_args [commit; short_flag; []; short_flag; lit "real"] =
  (false, [commit; short_flag; []; short_flag; lit "real"]).
Proof. reflexivity. Qed.

(** C1, as the code has it.  The first message flag decides alone only
    when its value is real: the answer is then [false] with the original
    arguments.  When its value is empty or a bare quotation mark the scan
    goes on: a later message flag with a real value turns the answer into
    [false] with the original arguments, and the answer is [true] exactly
    when there is no such later flag. *)
Theorem first_message_flag (pre post : list str) (f v : str) :
  existsb is_message_flag pre = false ->
  is_message_flag f = true ->
  (is_empty_message v = false ->
   _extract_commit_args (commit :: pre ++ f :: v :: post) =
   (false, commit :: pre ++ f :: v :: post)) /\
  (is_empty_message v = true ->
   (has_real_message post = true ->
    _extract_commit_args (commit :: pre ++ f :: v :: post) =
    (false, commit :: pre ++ f :: v :: post)) /\
   (has_real_message post = false ->
    fst (_extract_commit_args (commit :: pre ++ f :: v :: post)) = true)).
Proof.
  intros Hpre Hf; split; [intros Hv|intros Hv].
  - rewrite extract_commit.
    pose proof (has_real_message_at pre post f v Hf Hv) as H.
    apply kept_has_real_message in H; rewrite H; reflexivity.
  - assert (Hr : has_real_message (pre ++ f :: v :: post)
                 = has_real_message post).
    { rewrite (has_real_message_plain_prefix _ _ Hpre).
      rewrite (has_real_message_flag _ _ _ Hf), Hv; cbn [negb orb].
      apply has_real_message_cons, is_empty_message_not_flag, Hv. }
    rewrite extract_commit; split; intros Hp; rewrite Hp in Hr.
    + apply kept_has_real_message in Hr; rewrite Hr; reflexivity.
    + destruct (kept (pre ++ f :: v :: post)) as [k|] eqn:Ek.
      * cbn [fst]; rewrite existsb_app, existsb_cons, Hf.
        rewrite orb_true_r; reflexivity.
      * apply kept_has_real_message in Ek; congruence.
Qed.

Lemma first_message_flag_witness :
  (is_empty_message [] = false ->
   _extract_commit_args
     (commit :: [lit "-a"] ++ short_flag :: [] :: [long_flag; lit "real"]) =
   (false,
    commit :: [lit "-a"] ++ short_flag :: [] :: [long_flag; lit "real"])) /\
  (is_empty_message [] = true ->
   (has_real_message [long_flag; lit "real"] = true ->
    _extract_commit_args
      (commit :: [lit "-a"] ++ short_flag :: [] :: [long_flag; lit "real"]) =
    (false,
     commit :: [lit "-a"] ++ short_flag :: [] :: [long_flag; lit "real"])) /\
   (has_real_message [long_flag; lit "real"] = false ->
    fst (_extract_commit_args
           (commit :: [lit "-a"] ++ short_flag :: []
              :: [long_flag; lit "real"])) = true)).
Proof.
  apply (first_message_flag [lit "-a"] [long_flag; lit "real"]
           short_flag []); reflexivity.
Defined.

(** C5 as stated fails: the second message flag carries the empty
    string, but the first one carries a real message, and the classifier
    answers [false] with nothing removed. *)
Lemma empty_message_removed_counterexample :
  _extract_commit_args [commit; short_flag; lit "fix"; short_flag; []] =
  (false, [commit; short_flag; lit "fix"; short_flag; []]).
Proof. reflexivity. Qed.

(** C5, as the code has it.  In a commit invocation where a message flag
    is followed by the empty string or a bare quotation mark, and where
    no message flag is followed by a real value, the classifier answers
    [true], and the cleaned sequence is the one of the invocation without
    that flag and its value; when no other message flag is present, it is
    the invocation without that flag and its value. *)
Theorem empty_message_removed (pre post : list str) (f v : str) :
  is_message_flag f = true ->
  is_empty_message v = true ->
  has_real_message (pre ++ f :: v :: post) = false ->
  fst (_extract_commit_args (commit :: pre ++ f :: v :: post)) = true /\
  snd (_extract_commit_args (commit :: pre ++ f :: v :: post)) =
  snd (_extract_commit_args (commit :: pre ++ post)) /\
  (existsb is_message_flag (pre ++ post) = false ->
   snd (_extract_commit_args (commit :: pre ++ f :: v :: post)) =
   commit :: pre ++ post).
Proof.
  intros Hf Hv Hr.
  pose proof (kept_without_empty_message post f v Hf Hv pre Hr) as Hk.
  destruct (kept (pre ++ f :: v :: post)) as [k|] eqn:Ek.
  - rewrite !extract_commit, Ek, <- Hk; cbn [fst snd].
    split; [|split; [reflexivity|]].
    + rewrite existsb_app, existsb_cons, Hf, orb_true_r; reflexivity.
    + intros Hp; rewrite (kept_plain _ Hp) in Hk; congruence.
  - apply kept_has_real_message in Ek; congruence.
Qed.

Lemma empty_message_removed_witness :
  fst (_extract_commit_args
         (commit :: [lit "-a"] ++ long_flag :: double_quote :: [lit "-v"]))
  = true /\
  snd (_extract_commit_args
         (commit :: [lit "-a"] ++ long_flag :: double_quote :: [lit "-v"]))
  = snd (_extract_commit_args (commit :: [lit "-a"] ++ [lit "-v"])) /\
  (existsb is_message_flag ([lit "-a"] ++ [lit "-v"]) = false ->
   snd (_extract_commit_args
          (commit :: [lit "-a"] ++ long_flag :: double_quote :: [lit "-v"]))
   = commit :: [lit "-a"] ++ [lit "-v"]).
Proof.
  apply (empty_message_removed [lit "-a"] [lit "-v"] long_flag
           double_quote); reflexivity.
Defined.

(** C7 as stated fails: the message flag is the final token, without a
    value, but an earlier message flag carries a real message, and the
    classifier answers [false]. *)
Lemma dangling_flag_counterexample :
  _extract_commit_args [commit; short_flag; lit "fix"; short_flag] =
  (false, [commit; short_flag; lit "fix"; short_flag]).
Proof. reflexivity. Qed.

(** C7, as the code has it.  In a commit invocation whose final token is
    a message flag, and where no message flag is followed by a real value
    (the final flag itself counts as the value of a flag right before
    it), the classifier answers [true]. *)
Theorem dangling_flag_generates (pre : list str) (f : str) :
  is_message_flag f = true ->
  has_real_message (pre ++ [f]) = false ->
  fst (_extract_commit_args (commit :: pre ++ [f])) = true.
Proof.
  intros Hf Hr; rewrite extract_commit.
  destruct (kept (pre ++ [f])) as [k|] eqn:Ek.
  - cbn [fst]; rewrite existsb_app, existsb_cons, Hf, orb_true_r.
    reflexivity.
  - apply kept_has_real_message in Ek; congruence.
Qed.

Lemma dangling_flag_generates_witness :
  fst (_extract_commit_args (commit :: [lit "-a"] ++ [short_flag])) = true.
Proof.
  apply (dangling_flag_generates [lit "-a"] short_flag); reflexivity.
Defined.

(** C9 as stated fails: the empty string of the invocation is not a
    message flag, yet it is not in the cleaned sequence. *)
Lemma cleaned_sequence_counterexample :
  _extract_commit_args [commit; short_flag; []] = (true, [commit]) /\
  filter (fun a => negb (is_message_flag a)) [commit; short_flag; []] =
  [commit; []] /\
  ~ In [] [commit].
Proof.
  split; [reflexivity|]; split; [reflexivity|].
  intros [H|[]]; discriminate.
Qed.

(** C9, as the code has it.  When the classifier answers [true], the
    invocation starts with the commit token and so does the cleaned
    sequence; the cleaned sequence holds no message flag; it is the
    invocation without its message flags and without the value that
    directly follows each of them, the other tokens in their order: a
    subsequence of the invocation that keeps every token that is neither
    a message flag nor an empty or bare-quote value. *)
Theorem cleaned_sequence (argv cleaned : list str) :
  _extract_commit_args argv = (true, cleaned) ->
  exists args,
    argv = commit :: args /\
    cleaned = commit :: drop_messages false args /\
    Forall (fun a => is_message_flag a = false) cleaned /\
    subseq cleaned argv /\
    filter is_plain cleaned = filter is_plain argv.
Proof.
  destruct argv as [|argv0 args]; [discriminate|].
  unfold _extract_commit_args.
  destruct (str_eqb argv0 commit) eqn:E; [|discriminate].
  apply str_eqb_eq in E; subst argv0; cbn [negb].
  rewrite extract_loop_kept.
  destruct (kept args) as [k|] eqn:Ek; [|discriminate].
  intros H; inversion H; subst; clear H.
  destruct (kept_sound args k Ek) as [K1 [K2 [K3 K4]]].
  exists args; repeat split.
  - simpl; rewrite <- K4; reflexivity.
  - constructor; [exact commit_not_flag | exact K1].
  - apply subseq_keep; exact K2.
  - change ([commit] ++ k) with (commit :: k).
    change (filter is_plain (commit :: k))
      with (commit :: filter is_plain k).
    rewrite K3; reflexivity.
Qed.

Lemma cleaned_sequence_witness :
  exists args,
    [commit; lit "-a"; long_flag; single_quote; []; lit "-v"; short_flag]
    = commit :: args /\
    [commit; lit "-a"; []; lit "-v"] = commit :: drop_messages false args /\
    Forall (fun a => is_message_flag a = false)
      [commit; lit "-a"; []; lit "-v"] /\
    subseq [commit; lit "-a"; []; lit "-v"]
      [commit; lit "-a"; long_flag; single_quote; []; lit "-v"; short_flag]
    /\
    filter is_plain [commit; lit "-a"; []; lit "-v"] =
    filter is_plain
      [commit; lit "-a"; long_flag; single_quote; []; lit "-v"; short_flag].
Proof.
  apply (cleaned_sequence
           [commit; lit "-a"; long_flag; single_quote; []; lit "-v";
            short_flag]
           [commit; lit "-a"; []; lit "-v"]); reflexivity.
Defined.

(** C10.  A commit invocation without any message flag is not a request
    to generate: the classifier hands back the original arguments, and
    [main] runs git on them, unchanged, and returns its exit code. *)
Theorem plain_commit_passes_through (w : World) (args : list str) :
  existsb is_message_flag args = false ->
  _extract_commit_args (commit :: args) = (false, commit :: args) /\
  main w (commit :: args) =
  ([RunGit (commit :: args)], inr (w_run_git w (commit :: args))).
Proof.
  intros H.
  assert (He : _extract_commit_args (commit :: args)
               = (false, commit :: args)).
  { rewrite extract_commit, (kept_plain _ H), H; reflexivity. }
  split; [exact He|].
  unfold main; rewrite He; reflexivity.
Qed.

Lemma plain_commit_passes_through_witness :
  _extract_commit_args (commit :: [lit "-a"; lit "--amend"]) =
  (false, commit :: [lit "-a"; lit "--amend"]) /\
  main (sample_world 0 [] []) (commit :: [lit "-a"; lit "--amend"]) =
  ([RunGit (commit :: [lit "-a"; lit "--amend"])],
   inr (w_run_git (sample_world 0 [] [])
          (commit :: [lit "-a"; lit "--amend"]))).
Proof.
  apply (plain_commit_passes_through (sample_world 0 [] [])
           [lit "-a"; lit "--amend"]); reflexivity.
Defined.

(** ** The diff collector *)

Lemma join_cons (sep x : str) (l : list str) :
  l <> [] -> join sep (x :: l) = x ++ sep ++ join sep l.
Proof. destruct l; [congruence | reflexivity]. Qed.

Lemma truncation_marker_lines :
  splitlines truncation_marker = [[]; lit "... (truncated) ..."].
Proof. reflexivity. Qed.

(** The joined text of some lines and the marker reads back as those
    lines, an empty line, and the marker's text. *)
Lemma splitlines_join_marker (lines : list str) :
  Forall (fun l => one_line l = true) lines ->
  splitlines (join [LF] (lines ++ [truncation_marker])) =
  lines ++ [[]; lit "... (truncated) ..."].
Proof.
  induction 1 as [|l lines Hl Hlines IH]; [reflexivity|].
  simpl app; rewrite join_cons by (destruct lines; discriminate).
  unfold splitlines; rewrite (splitlines_from_app l Hl).
  simpl app; rewrite splitlines_from_LF.
  fold (splitlines (join [LF] (lines ++ [truncation_marker]))).
  rewrite IH; reflexivity.
Qed.

Lemma get_staged_diff_ok (w : World) (max_lines : Z) (out err : str) :
  w_capture_git w diff_cached = (0%Z, out, err) ->
  is_blank out = false ->
  _get_staged_diff w max_lines =
  ([CaptureGit diff_cached],
   inr (join [LF]
          (if (Z.of_nat (length (splitlines out)) >? max_lines)%Z
           then slice_to max_lines (splitlines out) ++ [truncation_marker]
           else splitlines out))).
Proof.
  intros Hw Hb; unfold _get_staged_diff, _capture_git, bind, emit, ret.
  rewrite Hw; cbn [Z.eqb negb].
  destruct (strip out) eqn:Es; [|reflexivity].
  apply strip_blank in Es; congruence.
Qed.

(** C2 as stated fails: from a diff of 501 lines the collector returns a
    text of 502 lines, because the marker element starts with a newline:
    the last original line kept, an empty line, the marker's text. *)
Lemma staged_diff_of_501_lines_counterexample :
  length (splitlines (repeat_line 501)) = 501 /\
  exists text,
    snd (_get_staged_diff (sample_world 0 (repeat_line 501) []) 500)
    = inr text /\
    length (splitlines text) = 502 /\
    skipn 499 (splitlines text) =
    [lit "x"; []; lit "... (truncated) ..."].
Proof.
  split; [vm_compute; reflexivity|].
  eexists; split; [vm_compute; reflexivity|].
  split; vm_compute; reflexivity.
Qed.

(** C2, as the code has it.  From a captured diff of 501 lines, not all
    whitespace, the collector returns the newline-joined text of 501
    elements: the first 500 original lines and one marker element.  The
    marker element starts with a newline, so the text reads as 502 lines:
    the 500 original lines, an empty line, and the marker's text. *)
Theorem staged_diff_of_501_lines (w : World) (out err : str) :
  w_capture_git w diff_cached = (0%Z, out, err) ->
  is_blank out = false ->
  length (splitlines out) = 501 ->
  exists text,
    _get_staged_diff w 500 = ([CaptureGit diff_cached], inr text) /\
    text = join [LF] (firstn 500 (splitlines out) ++ [truncation_marker]) /\
    length (firstn 500 (splitlines out) ++ [truncation_marker]) = 501 /\
    splitlines text =
    firstn 500 (splitlines out) ++ [[]; lit "... (truncated) ..."] /\
    length (splitlines text) = 502.
Proof.
  intros Hw Hb Hlen.
  exists (join [LF] (firstn 500 (splitlines out) ++ [truncation_marker])).
  split.
  { rewrite (get_staged_diff_ok w 500 out err Hw Hb), Hlen; reflexivity. }
  assert (Hf : length (firstn 500 (splitlines out)) = 500)
    by (rewrite length_firstn, Hlen; reflexivity).
  split; [reflexivity|].
  split; [rewrite length_app, Hf; reflexivity|].
  assert (Hs : splitlines
                 (join [LF] (firstn 500 (splitlines out)
                             ++ [truncation_marker])) =
               firstn 500 (splitlines out)
               ++ [[]; lit "... (truncated) ..."]).
  { apply splitlines_join_marker.
    rewrite Forall_forall; intros l Hl.
    pose proof (splitlines_lines out) as Hall.
    rewrite Forall_forall in Hall; apply Hall.
    apply (In_firstn _ _ _ Hl). }
  split; [exact Hs|].
  rewrite Hs, length_app, Hf; reflexivity.
Qed.

Lemma staged_diff_of_501_lines_witness :
  exists text,
    _get_staged_diff (sample_world 0 (repeat_line 501) []) 500 =
    ([CaptureGit diff_cached], inr text) /\
    text = join [LF] (firstn 500 (splitlines (repeat_line 501))
                      ++ [truncation_marker]) /\
    length (firstn 500 (splitlines (repeat_line 501))
            ++ [truncation_marker]) = 501 /\
    splitlines text =
    firstn 500 (splitlines (repeat_line 501))
    ++ [[]; lit "... (truncated) ..."] /\
    length (splitlines text) = 502.
Proof.
  apply (staged_diff_of_501_lines (sample_world 0 (repeat_line 501) [])
           (repeat_line 501) []).
  - reflexivity.
  - vm_compute; reflexivity.
  - vm_compute; reflexivity.
Defined.

(** ** The entry point *)

(** C8.  With the arguments commit, the short message flag and the empty
    string, and a staged diff that is empty or all whitespace, [main]
    exits with code 1 and the text-generation request is never made:
    the only external call is the captured git diff. *)
Theorem no_staged_changes (w : World) (code : Z) (out err : str) :
  w_capture_git w diff_cached = (code, out, err) ->
  is_blank out = true ->
  exists o,
    main w [commit; short_flag; []] =
    ([CaptureGit diff_cached; PrintErr o], inr 1%Z) /\
    existsb is_post (fst (main w [commit; short_flag; []])) = false.
Proof.
  intros Hw Hb; apply strip_blank in Hb.
  unfold main.
  change (_extract_commit_args [commit; short_flag; []])
    with (true, [commit]).
  cbn [negb].
  unfold _get_staged_diff, _capture_git, attempt, bind, emit, ret, raise.
  rewrite Hw.
  destruct (negb (code =? 0)%Z).
  - cbn; eauto.
  - rewrite Hb; cbn; eauto.
Qed.

Lemma no_staged_changes_witness :
  exists o,
    main (sample_world 0 (lit "  " ++ [LF]) (lit "feat: x"))
      [commit; short_flag; []] =
    ([CaptureGit diff_cached; PrintErr o], inr 1%Z) /\
    existsb is_post
      (fst (main (sample_world 0 (lit "  " ++ [LF]) (lit "feat: x"))
              [commit; short_flag; []])) = false.
Proof.
  apply (no_staged_changes
           (sample_world 0 (lit "  " ++ [LF]) (lit "feat: x"))
           0%Z (lit "  " ++ [LF]) []); reflexivity.
Defined.

(** * More of the program *)

(** ** The classifier, in full *)

Lemma extract_false_unchanged (argv : list str) :
  fst (_extract_commit_args argv) = false ->
  _extract_commit_args argv = (false, argv).
Proof.
  destruct argv as [|argv0 args]; [reflexivity|].
  unfold _extract_commit_args.
  destruct (str_eqb argv0 commit) eqn:E; [|reflexivity].
  apply str_eqb_eq in E; subst argv0; cbn [negb].
  rewrite extract_loop_kept.
  destruct (kept args) as [k|] eqn:Ek; [|reflexivity].
  cbn [fst orb]; intros H.
  rewrite (kept_plain _ H) in Ek; inversion Ek; subst.
  rewrite H; reflexivity.
Qed.

Lemma no_flag_existsb (k : list str) :
  Forall (fun a => is_message_flag a = false) k ->
  existsb is_message_flag k = false.
Proof.
  induction 1 as [|a k Ha _ IH]; [reflexivity|].
  simpl; rewrite Ha, IH; reflexivity.
Qed.

Lemma run_git_run (w : World) (args : list str) :
  _run_git w args = ([RunGit args], inr (w_run_git w args)).
Proof. reflexivity. Qed.

(** X1.  The classifier asks for a generated message exactly for a
    commit invocation that holds a message flag and in which no message
    flag is directly followed by a real value. *)
Theorem generation_trigger (argv : list str) :
  fst (_extract_commit_args argv) = true <->
  exists args,
    argv = commit :: args /\
    existsb is_message_flag args = true /\
    has_real_message args = false.
Proof.
  split.
  - destruct argv as [|argv0 args]; [discriminate|].
    unfold _extract_commit_args.
    destruct (str_eqb argv0 commit) eqn:E; [|discriminate].
    apply str_eqb_eq in E; subst argv0; cbn [negb].
    rewrite extract_loop_kept.
    destruct (kept args) as [k|] eqn:Ek; [|discriminate].
    cbn [fst orb]; intros H; exists args.
    split; [reflexivity|]; split; [exact H|].
    destruct (has_real_message args) eqn:Hr; [|reflexivity].
    apply kept_has_real_message in Hr; congruence.
  - intros [args [-> [Hf Hr]]]; rewrite extract_commit.
    destruct (kept args) as [k|] eqn:Ek; [exact Hf|].
    apply kept_has_real_message in Ek; congruence.
Qed.

(** X2.  Whenever the classifier does not ask for a generated message,
    it hands back the arguments it was given, and [main] runs git on
    them, returns git's exit code, and makes no other external call. *)
Theorem not_triggered_passes_through (w : World) (argv : list str) :
  fst (_extract_commit_args argv) = false ->
  _extract_commit_args argv = (false, argv) /\
  main w argv = ([RunGit argv], inr (w_run_git w argv)).
Proof.
  intros H; apply extract_false_unchanged in H.
  split; [exact H|].
  unfold main; rewrite H; reflexivity.
Qed.

Lemma not_triggered_passes_through_witness :
  _extract_commit_args [lit "push"; short_flag; []] =
  (false, [lit "push"; short_flag; []]) /\
  main (sample_world 0 [] []) [lit "push"; short_flag; []] =
  ([RunGit [lit "push"; short_flag; []]],
   inr (w_run_git (sample_world 0 [] []) [lit "push"; short_flag; []])).
Proof.
  apply (not_triggered_passes_through (sample_world 0 [] [])
           [lit "push"; short_flag; []]); reflexivity.
Defined.

(** X3.  The arguments the classifier returns are never a request to
    generate: classified again, they come back unchanged with the answer
    [false]. *)
Theorem classifier_idempotent (argv : list str) :
  _extract_commit_args (snd (_extract_commit_args argv)) =
  (false, snd (_extract_commit_args argv)).
Proof.
  destruct (fst (_extract_commit_args argv)) eqn:E.
  - destruct argv as [|argv0 args]; [discriminate|].
    unfold _extract_commit_args in E |- *.
    destruct (str_eqb argv0 commit) eqn:E0; [|discriminate].
    cbn [negb] in *; rewrite extract_loop_kept in *.
    destruct (kept args) as [k|] eqn:Ek; [|discriminate].
    cbn [snd app].
    destruct (kept_sound args k Ek) as [K1 _].
    fold (_extract_commit_args (commit :: k)).
    rewrite extract_commit, (kept_plain _ (no_flag_existsb k K1)).
    rewrite (no_flag_existsb k K1); reflexivity.
  - apply extract_false_unchanged in E; rewrite E; exact E.
Qed.

(** X4.  The loop of the classifier, written with its index, ends: with
    more fuel than there are tokens after the commit token it returns,
    and what it returns is the result of the classifier. *)
Theorem indexed_loop_terminates (args : list str) (fuel : nat) :
  length args < fuel ->
  extract_loop_at fuel args 0 false [commit] =
  Some (_extract_commit_args (commit :: args)).
Proof.
  intros H; rewrite extract_loop_at_correct by lia.
  unfold _extract_commit_args; rewrite str_eqb_refl; reflexivity.
Qed.

Lemma indexed_loop_terminates_witness :
  extract_loop_at 4 [lit "-a"; short_flag; []] 0 false [commit] =
  Some (_extract_commit_args (commit :: [lit "-a"; short_flag; []])).
Proof.
  apply (indexed_loop_terminates [lit "-a"; short_flag; []] 4).
  simpl; lia.
Defined.

(** ** The diff collector, in full *)

Lemma strip_idem (s : str) : strip (strip s) = strip s.
Proof.
  destruct (strip_head s) as [H|[c [t [H Hc]]]]; rewrite H; [reflexivity|].
  unfold strip at 1; rewrite (lstrip_fixed c t Hc), <- H.
  unfold strip; apply rstrip_idem.
Qed.

Lemma is_blank_false (s : str) :
  is_blank s = false <-> exists c, In c s /\ isspace c = false.
Proof.
  unfold is_blank; induction s as [|a s IH]; simpl.
  - split; [discriminate | intros [c [[] _]]].
  - rewrite andb_false_iff, IH; split.
    + intros [H|[c [H1 H2]]]; [exists a; auto | exists c; auto].
    + intros [c [[->|H1] H2]]; [left; exact H2 | right; exists c; auto].
Qed.

(** A character that is not a line boundary stays in one of the lines. *)
Lemma splitlines_from_In (c : char) (s : str) :
  is_linebreak c = false ->
  forall cur, In c (cur ++ s) ->
  exists l, In l (splitlines_from cur s) /\ In c l.
Proof.
  intros Hc.
  induction s as [| a | a b s IH1 IH2] using list_ind2; intros cur Hin.
  - rewrite app_nil_r in Hin; simpl.
    destruct cur as [|x cur]; [destruct Hin|].
    exists (x :: cur); split; [left; reflexivity | exact Hin].
  - simpl; destruct (is_linebreak a) eqn:Ea.
    + apply in_app_or in Hin; destruct Hin as [Hin|[->|[]]];
        [|congruence].
      exists cur; split; [left; reflexivity | exact Hin].
    + exists (cur ++ [a]); split; [|exact Hin].
      destruct (cur ++ [a]) eqn:E; [destruct cur; discriminate|].
      left; reflexivity.
  - cbn [splitlines_from]; destruct (is_linebreak a) eqn:Ea.
    + apply in_app_or in Hin; destruct Hin as [Hin|[->|Hin]];
        [exists cur; split; [left; reflexivity | exact Hin]
        | congruence |].
      destruct ((a =? CR)%N && (b =? LF)%N) eqn:Ecr.
      * apply andb_true_iff in Ecr; destruct Ecr as [_ Eb].
        apply N.eqb_eq in Eb; subst b.
        destruct Hin as [Hx|Hin]; [rewrite <- Hx in Hc; discriminate Hc|].
        destruct (IH1 [] Hin) as [l [H1 H2]].
        exists l; split; [right; exact H1 | exact H2].
      * destruct (IH2 [] Hin) as [l [H1 H2]].
        exists l; split; [right; exact H1 | exact H2].
    + apply IH2; rewrite <- app_assoc; exact Hin.
Qed.

Lemma In_join (sep : str) (c : char) (l : str) (ls : list str) :
  In l ls -> In c l -> In c (join sep ls).
Proof.
  intros Hl Hc; induction ls as [|x ls IH]; [destruct Hl|].
  destruct ls as [|y ls].
  - destruct Hl as [->|[]]; exact Hc.
  - rewrite join_cons by discriminate.
    destruct Hl as [->|Hl]; apply in_or_app;
      [left; exact Hc | right; apply in_or_app; right; apply IH, Hl].
Qed.

Lemma In_join_inv (sep : str) (c : char) (ls : list str) :
  In c (join sep ls) -> In c sep \/ exists l, In l ls /\ In c l.
Proof.
  induction ls as [|x ls IH]; [intros []|].
  destruct ls as [|y ls].
  - intros H; right; exists x; split; [left; reflexivity | exact H].
  - rewrite join_cons by discriminate; intros H.
    apply in_app_or in H; destruct H as [H|H].
    + right; exists x; split; [left; reflexivity | exact H].
    + apply in_app_or in H; destruct H as [H|H]; [left; exact H|].
      destruct (IH H) as [H'|[l [H1 H2]]]; [left; exact H'|].
      right; exists l; split; [right; exact H1 | exact H2].
Qed.

Lemma In_slice_to (l : str) (n : Z) (ls : list str) :
  In l (slice_to n ls) -> In l ls.
Proof.
  unfold slice_to; destruct (0 <=? n)%Z; apply In_firstn.
Qed.

Lemma slice_to_nat (n : nat) (ls : list str) :
  slice_to (Z.of_nat n) ls = firstn n ls.
Proof.
  unfold slice_to.
  destruct (Z.leb_spec 0 (Z.of_nat n)); [|lia].
  rewrite Nat2Z.id; reflexivity.
Qed.

(** X5.  When git reports a non-zero exit status for the staged diff, the
    collector raises, whatever the output and the limit; the text of the
    error is never empty: it is the trimmed error output of git, or a
    fixed text when that output is blank. *)
Theorem staged_diff_failure (w : World) (max_lines code : Z)
    (out err : str) :
  w_capture_git w diff_cached = (code, out, err) ->
  code <> 0%Z ->
  exists text,
    _get_staged_diff w max_lines =
    ([CaptureGit diff_cached], inl (RuntimeError (DiffError text))) /\
    text <> [] /\
    strip text = text /\
    (is_blank err = false -> text = strip err) /\
    (is_blank err = true -> text = lit "failed to get staged diff").
Proof.
  intros Hw Hcode.
  unfold _get_staged_diff, _capture_git, bind, emit, ret, raise.
  rewrite Hw.
  destruct (Z.eqb_spec code 0); [congruence|]; cbn [negb].
  destruct (strip err) as [|c t] eqn:Es.
  - exists (lit "failed to get staged diff").
    split; [reflexivity|]; split; [discriminate|].
    split; [reflexivity|].
    apply strip_blank in Es; split; [congruence | reflexivity].
  - exists (c :: t); split; [reflexivity|]; split; [discriminate|].
    split; [rewrite <- Es; apply strip_idem|].
    split; [reflexivity|].
    intros Hb; apply strip_blank in Hb; congruence.
Qed.

Lemma staged_diff_failure_witness :
  exists text,
    _get_staged_diff
      {| w_run_git := fun _ => 0%Z;
         w_capture_git := fun _ => (128%Z, [], lit " fatal: not a repo ");
         w_config := w_config (sample_world 0 [] []);
         w_api_key := None;
         w_post := fun _ => PostRaised;
         w_json_content := fun _ => None;
         w_lower := fun s => s |} 500 =
    ([CaptureGit diff_cached], inl (RuntimeError (DiffError text))) /\
    text <> [] /\
    strip text = text /\
    (is_blank (lit " fatal: not a repo ") = false ->
     text = strip (lit " fatal: not a repo ")) /\
    (is_blank (lit " fatal: not a repo ") = true ->
     text = lit "failed to get staged diff").
Proof.
  apply (staged_diff_failure _ 500 128%Z [] (lit " fatal: not a repo "));
    [reflexivity | discriminate].
Defined.

Lemma staged_text_not_blank (w : World) (max_lines : Z) (out err : str) :
  w_capture_git w diff_cached = (0%Z, out, err) ->
  is_blank out = false ->
  exists text,
    _get_staged_diff w max_lines = ([CaptureGit diff_cached], inr text) /\
    is_blank text = false.
Proof.
  intros Hw Hb.
  rewrite (get_staged_diff_ok w max_lines out err Hw Hb).
  eexists; split; [reflexivity|].
  apply is_blank_false.
  destruct (Z.of_nat (length (splitlines out)) >? max_lines)%Z.
  - exists 46%N; split; [|reflexivity].
    apply (In_join _ _ truncation_marker);
      [apply in_or_app; right; left; reflexivity|].
    right; left; reflexivity.
  - apply is_blank_false in Hb; destruct Hb as [c [H1 H2]].
    exists c; split; [|exact H2].
    destruct (splitlines_from_In c out (not_space_not_linebreak c H2)
                [] H1) as [l [L1 L2]].
    apply (In_join _ _ l); assumption.
Qed.

(** X6.  With exit status 0 the collector returns a text that is blank
    exactly when the captured output is blank, whatever the limit: blank
    output gives the empty text, and output that is not blank never
    gives a blank text, truncated or not. *)
Theorem staged_diff_blank (w : World) (max_lines : Z) (out err : str) :
  w_capture_git w diff_cached = (0%Z, out, err) ->
  exists text,
    _get_staged_diff w max_lines = ([CaptureGit diff_cached], inr text) /\
    is_blank text = is_blank out /\
    (is_blank out = true -> text = []).
Proof.
  intros Hw; destruct (is_blank out) eqn:Hb.
  - exists []; split; [|auto].
    unfold _get_staged_diff, _capture_git, bind, emit, ret.
    rewrite Hw; cbn [Z.eqb negb].
    apply strip_blank in Hb; rewrite Hb; reflexivity.
  - destruct (staged_text_not_blank w max_lines out err Hw Hb)
      as [text [H1 H2]].
    exists text; split; [exact H1|]; split; [exact H2 | discriminate].
Qed.

Lemma staged_diff_blank_witness :
  exists text,
    _get_staged_diff (sample_world 0 (lit "+x" ++ [LF]) []) 500 =
    ([CaptureGit diff_cached], inr text) /\
    is_blank text = is_blank (lit "+x" ++ [LF]) /\
    (is_blank (lit "+x" ++ [LF]) = true -> text = []).
Proof.
  apply (staged_diff_blank (sample_world 0 (lit "+x" ++ [LF]) []) 500
           (lit "+x" ++ [LF]) []); reflexivity.
Defined.

(** X7.  The limit is applied to the lines of the output, for every
    limit that is not negative.  Output of at most that many lines comes
    back as its lines joined by newlines, without a marker.  Output of
    more lines comes back as its first lines up to the limit, an empty
    line and the marker's text: two lines more than the limit. *)
Theorem staged_diff_limit (w : World) (n : nat) (out err : str) :
  w_capture_git w diff_cached = (0%Z, out, err) ->
  is_blank out = false ->
  exists text,
    _get_staged_diff w (Z.of_nat n) =
    ([CaptureGit diff_cached], inr text) /\
    (length (splitlines out) <= n -> text = join [LF] (splitlines out)) /\
    (n < length (splitlines out) ->
     splitlines text =
     firstn n (splitlines out) ++ [[]; lit "... (truncated) ..."] /\
     length (splitlines text) = n + 2).
Proof.
  intros Hw Hb.
  rewrite (get_staged_diff_ok w (Z.of_nat n) out err Hw Hb).
  eexists; split; [reflexivity|]; split; intros Hn.
  - rewrite Z.gtb_ltb; destruct (Z.ltb_spec (Z.of_nat n)
        (Z.of_nat (length (splitlines out)))); [lia | reflexivity].
  - rewrite Z.gtb_ltb; destruct (Z.ltb_spec (Z.of_nat n)
        (Z.of_nat (length (splitlines out)))); [|lia].
    rewrite slice_to_nat.
    assert (Hs : splitlines
                   (join [LF] (firstn n (splitlines out)
                               ++ [truncation_marker])) =
                 firstn n (splitlines out)
                 ++ [[]; lit "... (truncated) ..."]).
    { apply splitlines_join_marker.
      rewrite Forall_forall; intros l Hl.
      pose proof (splitlines_lines out) as Hall.
      rewrite Forall_forall in Hall; apply Hall.
      apply (In_firstn _ _ _ Hl). }
    split; [exact Hs|].
    rewrite Hs, length_app, length_firstn; simpl; lia.
Qed.

Lemma staged_diff_limit_witness :
  exists text,
    _get_staged_diff (sample_world 0 (repeat_line 5) []) (Z.of_nat 3) =
    ([CaptureGit diff_cached], inr text) /\
    (length (splitlines (repeat_line 5)) <= 3 ->
     text = join [LF] (splitlines (repeat_line 5))) /\
    (3 < length (splitlines (repeat_line 5)) ->
     splitlines text =
     firstn 3 (splitlines (repeat_line 5))
     ++ [[]; lit "... (truncated) ..."] /\
     length (splitlines text) = 3 + 2).
Proof.
  apply (staged_diff_limit (sample_world 0 (repeat_line 5) []) 3
           (repeat_line 5) []); reflexivity.
Defined.

(** X8.  The text the collector returns has newlines as its only line
    boundaries: carriage returns and the other line boundaries of the
    captured output are replaced, whatever the limit. *)
Theorem staged_diff_newlines (w : World) (max_lines : Z)
    (t : list event) (text : str) :
  _get_staged_diff w max_lines = (t, inr text) ->
  forall c, In c text -> is_linebreak c = true -> c = LF.
Proof.
  unfold _get_staged_diff, _capture_git, bind, emit, ret, raise.
  destruct (w_capture_git w diff_cached) as [[code o] e].
  destruct (negb (code =? 0)%Z); [discriminate|].
  destruct (strip o) as [|s0 ss] eqn:Es.
  { intros H; inversion H; subst; intros c []. }
  intros H; inversion H; subst; clear H.
  intros c Hin Hc.
  apply In_join_inv in Hin; destruct Hin as [[->|[]]|[l [H1 H2]]];
    [reflexivity|].
  assert (Hl : In l (splitlines o) \/ l = truncation_marker).
  { destruct (Z.of_nat (length (splitlines o)) >? max_lines)%Z;
      [|left; exact H1].
    apply in_app_or in H1; destruct H1 as [H1|[<-|[]]];
      [left; apply (In_slice_to _ _ _ H1) | right; reflexivity]. }
  destruct Hl as [Hl| ->].
  - pose proof (splitlines_lines o) as Hall.
    rewrite Forall_forall in Hall; specialize (Hall l Hl).
    rewrite one_line_forall in Hall; rewrite (Hall c H2) in Hc.
    discriminate.
  - destruct H2 as [<-|H2]; [reflexivity|].
    assert (Hm : one_line (lit "... (truncated) ...") = true)
      by reflexivity.
    rewrite one_line_forall in Hm; rewrite (Hm c H2) in Hc; discriminate.
Qed.

Lemma staged_diff_newlines_witness : 10%N = LF.
Proof.
  apply (staged_diff_newlines
           (sample_world 0 (lit "a" ++ [CR; LF] ++ lit "b" ++ [CR]) [])
           500 [CaptureGit diff_cached] (lit "a" ++ [LF] ++ lit "b")
           eq_refl 10%N).
  - right; left; reflexivity.
  - reflexivity.
Defined.

(** ** The message generator, in full *)

Lemma splitlines_not_nil (s : str) : s <> [] -> splitlines s <> [].
Proof.
  destruct s as [|c s]; [congruence|]; intros _.
  unfold splitlines; simpl.
  destruct (is_linebreak c); [discriminate|].
  destruct (splitlines_from_first s [c]) as [u [ls [H _]]];
    [discriminate|].
  rewrite H; discriminate.
Qed.

(** The guardrail leaves a text that is trimmed on the right as it is,
    cut to 120 characters and trimmed again. *)
Lemma guardrail_cut (s : str) :
  rstrip s = s ->
  (if 120 <? length s then rstrip (firstn 120 s) else s) =
  rstrip (firstn 120 s).
Proof.
  intros H; destruct (120 <? length s) eqn:E; [reflexivity|].
  apply Nat.ltb_ge in E; rewrite (firstn_all2 _ E), H; reflexivity.
Qed.

Lemma guardrail_trimmed (c : char) (u : str) :
  isspace c = false ->
  let first_line := strip (c :: u) in
  let result :=
    if 120 <? length first_line then rstrip (firstn 120 first_line)
    else first_line in
  strip result = result.
Proof.
  intros Hc first_line result.
  assert (Hfl : exists v, first_line = c :: v).
  { unfold first_line, strip; rewrite (lstrip_fixed c u Hc).
    apply rstrip_head, Hc. }
  destruct Hfl as [v Hv].
  assert (Hr : rstrip first_line = first_line)
    by (unfold first_line, strip; apply rstrip_idem).
  unfold result; rewrite (guardrail_cut first_line Hr), Hv.
  change (firstn 120 (c :: v)) with (c :: firstn 119 v).
  destruct (rstrip_head c (firstn 119 v) Hc) as [t Ht].
  unfold strip; rewrite Ht, (lstrip_fixed c t Hc), <- Ht.
  apply rstrip_idem.
Qed.

(** What [_generate_message] returns is the guardrail's result on a line
    that starts with a character that is not whitespace. *)
Lemma generate_returns_shape (w : World)
    (diff provider model style : str) (t : list event) (message : str) :
  _generate_message w diff provider model style = (t, inr message) ->
  exists c u,
    isspace c = false /\ one_line (c :: u) = true /\
    message =
    (if 120 <? length (strip (c :: u))
     then rstrip (firstn 120 (strip (c :: u)))
     else strip (c :: u)).
Proof.
  unfold _generate_message.
  destruct (negb (str_eqb provider (lit "openai"))); [discriminate|].
  unfold bind.
  destruct (_openai_chat_complete w model _) as [t0 [e|content]] eqn:E;
    [discriminate|].
  apply openai_returns_trimmed in E; destruct E as [raw ->].
  destruct (splitlines (strip raw)) as [|line ls] eqn:Es; [discriminate|].
  unfold ret; intros H; inversion H; subst; clear H.
  destruct (strip_head raw) as [Hr|[c [s [Hr Hc]]]];
    rewrite Hr in Es; [discriminate|].
  unfold splitlines in Es; simpl in Es.
  rewrite (not_space_not_linebreak c Hc) in Es.
  destruct (splitlines_from_first s [c]) as [u [ls' [H1 H2]]];
    [discriminate|].
  rewrite H1 in Es; inversion Es; subst; clear Es.
  exists c, u; split; [exact Hc|]; split; [|reflexivity].
  simpl; rewrite (not_space_not_linebreak c Hc); exact H2.
Qed.

Lemma generate_returns_subject (w : World)
    (diff provider model style : str) (t : list event) (message : str) :
  _generate_message w diff provider model style = (t, inr message) ->
  message <> [] /\ length message <= 120 /\ one_line message = true /\
  strip message = message.
Proof.
  intros H; apply generate_returns_shape in H.
  destruct H as [c [u [Hc [Hl ->]]]].
  destruct (guardrail_invariant c u Hc Hl) as [G1 [G2 G3]].
  pose proof (guardrail_trimmed c u Hc) as G4.
  repeat split; assumption.
Qed.

(** The only external call of the generator is the request. *)
Lemma chat_complete_trace (w : World) (model : str)
    (messages : list (str * str)) :
  fst (_openai_chat_complete w model messages) = [] \/
  fst (_openai_chat_complete w model messages) =
  [Post {| p_model := model; p_messages := messages |}].
Proof.
  unfold _openai_chat_complete.
  destruct (w_api_key w) as [[|k key]|]; try (left; reflexivity).
  right; unfold bind, emit, raise, ret.
  destruct (w_post w _) as [|status text]; [reflexivity|].
  destruct ((status <? 200)%Z || (status >=? 300)%Z); [reflexivity|].
  destruct (w_json_content w text); reflexivity.
Qed.

Lemma generate_trace (w : World) (diff provider model style : str) :
  fst (_generate_message w diff provider model style) = [] \/
  exists p,
    p_model p = model /\
    fst (_generate_message w diff provider model style) = [Post p].
Proof.
  unfold _generate_message.
  destruct (negb (str_eqb provider (lit "openai"))); [left; reflexivity|].
  match goal with
  | |- context [_openai_chat_complete w model ?m] =>
      destruct (chat_complete_trace w model m) as [H|H];
      destruct (_openai_chat_complete w model m) as [t0 [e|content]]
  end; simpl in H; subst t0; unfold bind, raise, ret.
  - left; reflexivity.
  - left; destruct (splitlines content); reflexivity.
  - right; eexists; split; [|reflexivity]; reflexivity.
  - right; eexists; split;
      [|destruct (splitlines content); simpl; reflexivity]; reflexivity.
Qed.

Lemma strip_blank_prefix (ws s : str) :
  is_blank ws = true -> strip (ws ++ s) = strip s.
Proof.
  intros H; apply lstrip_blank in H.
  unfold strip; rewrite lstrip_app, H; reflexivity.
Qed.

(** X9.  The completion call returns content exactly when an API key is
    set, the request comes back with a status from 200 to 299 and the
    body holds a message content; the content is returned trimmed and the
    request is the only external call. *)
Theorem chat_complete_returns (w : World) (model : str)
    (messages : list (str * str)) (t : list event) (content : str) :
  _openai_chat_complete w model messages = (t, inr content) <->
  (exists c key, w_api_key w = Some (c :: key)) /\
  exists status text raw,
    w_post w {| p_model := model; p_messages := messages |} =
    PostReturned status text /\
    (200 <= status < 300)%Z /\
    w_json_content w text = Some raw /\
    content = strip raw /\
    t = [Post {| p_model := model; p_messages := messages |}].
Proof.
  unfold _openai_chat_complete; split.
  - destruct (w_api_key w) as [[|k key]|]; try discriminate.
    unfold bind, emit, raise, ret.
    destruct (w_post w _) as [|status text] eqn:Ep; [discriminate|].
    destruct ((status <? 200)%Z || (status >=? 300)%Z) eqn:Est;
      [discriminate|].
    destruct (w_json_content w text) as [raw|] eqn:Ej; [|discriminate].
    apply orb_false_iff in Est; destruct Est as [E1 E2].
    apply Z.ltb_ge in E1; rewrite Z.geb_leb in E2; apply Z.leb_gt in E2.
    intros H; inversion H; subst; split; [eauto|].
    exists status, text, raw; repeat split; assumption.
  - intros [[k [key ->]] [status [text [raw [H1 [H2 [H3 [-> ->]]]]]]]].
    unfold bind, emit, raise, ret; rewrite H1.
    replace ((status <? 200)%Z || (status >=? 300)%Z) with false by lia.
    rewrite H3; reflexivity.
Qed.

(** X10.  With an endpoint that answers, the generator returns a subject
    exactly when the answer is not blank: a blank answer raises
    [IndexError] after the request, any other answer gives a subject. *)
Theorem generation_needs_text (w : World) (diff model style raw : str) :
  replies w raw ->
  (is_blank raw = true ->
   exists t,
     _generate_message w diff (lit "openai") model style =
     (t, inl IndexError)) /\
  (is_blank raw = false ->
   exists t message,
     _generate_message w diff (lit "openai") model style =
     (t, inr message)).
Proof.
  intros Hw.
  destruct (generate_replies w diff model style raw Hw) as [t Ht].
  split; intros Hb.
  - apply strip_blank in Hb; rewrite Hb in Ht; exists t; exact Ht.
  - destruct (splitlines (strip raw)) as [|line ls] eqn:Es.
    + exfalso; apply (splitlines_not_nil (strip raw)); [|exact Es].
      intros H; apply strip_blank in H; congruence.
    + eauto.
Qed.

Lemma generation_needs_text_witness :
  (is_blank (lit "  " ++ [LF]) = true ->
   exists t,
     _generate_message (sample_world 0 [] (lit "  " ++ [LF])) (lit "+x")
       (lit "openai") (lit "gpt-4o-mini") (lit "conventional") =
     (t, inl IndexError)) /\
  (is_blank (lit "  " ++ [LF]) = false ->
   exists t message,
     _generate_message (sample_world 0 [] (lit "  " ++ [LF])) (lit "+x")
       (lit "openai") (lit "gpt-4o-mini") (lit "conventional") =
     (t, inr message)).
Proof.
  apply (generation_needs_text (sample_world 0 [] (lit "  " ++ [LF]))
           (lit "+x") (lit "gpt-4o-mini") (lit "conventional")
           (lit "  " ++ [LF])).
  split; [exists 107%N, (lit "ey"); reflexivity|].
  intros p; exists 200%Z, (lit "  " ++ [LF]).
  split; [reflexivity | split; [lia | reflexivity]].
Defined.

(** X11.  The subject comes from the first line of the answer that is
    not blank: whitespace and blank lines before it are skipped, what
    follows its end is dropped, and the subject is that line trimmed, cut
    to 120 characters and trimmed on the right again.  This holds for an
    answer of one line as for one of several, and for a line of any
    length. *)
Theorem subject_of_response (w : World) (diff model style : str)
    (ws L tail : str) :
  replies w (ws ++ L ++ tail) ->
  is_blank ws = true ->
  one_line L = true ->
  is_blank L = false ->
  (tail = [] \/ exists b rest, tail = b :: rest /\ is_linebreak b = true) ->
  exists t,
    _generate_message w diff (lit "openai") model style =
    (t, inr (rstrip (firstn 120 (strip L)))).
Proof.
  intros Hw Hws HL Hnb Htail.
  destruct (generate_replies w diff model style _ Hw) as [t Ht].
  rewrite (strip_blank_prefix ws _ Hws) in Ht.
  assert (Hline : exists line ls,
             splitlines (strip (L ++ tail)) = line :: ls /\
             strip line = strip L).
  { destruct Htail as [->|[b [rest [-> Hb]]]].
    - rewrite app_nil_r; exists (strip L), []; split; [|apply strip_idem].
      apply splitlines_one_line.
      + apply (one_line_sub L); [intros x; apply In_strip | exact HL].
      + intros H; apply strip_blank in H; congruence.
    - apply first_line_trimmed; assumption. }
  destruct Hline as [line [ls [H1 H2]]].
  rewrite H1, H2, guardrail_cut in Ht;
    [|unfold strip; apply rstrip_idem].
  exists t; exact Ht.
Qed.

Lemma subject_of_response_witness :
  exists t,
    _generate_message
      (sample_world 0 []
         ([LF; 32%N] ++ lit "  fix: typo " ++ [CR; LF] ++ lit "body"))
      (lit "+x") (lit "openai") (lit "gpt-4o-mini") (lit "conventional") =
    (t, inr (rstrip (firstn 120 (strip (lit "  fix: typo "))))).
Proof.
  apply (subject_of_response
           (sample_world 0 []
              ([LF; 32%N] ++ lit "  fix: typo " ++ [CR; LF] ++ lit "body"))
           (lit "+x") (lit "gpt-4o-mini") (lit "conventional")
           [LF; 32%N] (lit "  fix: typo ") ([CR; LF] ++ lit "body")).
  - split; [exists 107%N, (lit "ey"); reflexivity|].
    intros p; eexists 200%Z, _.
    split; [reflexivity | split; [lia | reflexivity]].
  - reflexivity.
  - reflexivity.
  - reflexivity.
  - right; exists CR, (LF :: lit "body"); split; reflexivity.
Defined.

(** X12.  A subject that [_generate_message] returns has no whitespace
    at either end: trimming it changes nothing. *)
Theorem generated_subject_trimmed (w : World)
    (diff provider model style : str) (t : list event) (message : str) :
  _generate_message w diff provider model style = (t, inr message) ->
  strip message = message.
Proof.
  intros H; apply generate_returns_subject in H; tauto.
Qed.

Lemma generated_subject_trimmed_witness :
  strip (lit "feat: x") = lit "feat: x".
Proof.
  eapply (generated_subject_trimmed
            (sample_world 0 [] (lit "  feat: x  " ++ LF :: lit "more"))
            (lit "diff") (lit "openai") (lit "gpt-4o-mini")
            (lit "conventional")).
  vm_compute; reflexivity.
Defined.

(** ** The entry point, in full *)

Lemma get_staged_diff_trace (w : World) (max_lines : Z) :
  fst (_get_staged_diff w max_lines) = [CaptureGit diff_cached].
Proof.
  unfold _get_staged_diff, _capture_git, bind, emit, ret, raise.
  destruct (w_capture_git w diff_cached) as [[code out] err].
  destruct (negb (code =? 0)%Z); [reflexivity|].
  destruct (strip out); reflexivity.
Qed.

(** The path of [main] that generates, by the results of the collector
    and of the generator. *)
Lemma main_generate (w : World) (argv cleaned : list str) :
  _extract_commit_args argv = (true, cleaned) ->
  main w argv =
  match _get_staged_diff w 500 with
  | (t1, inl exc) => (t1 ++ [PrintErr (FailedToReadDiff exc)], inr 1%Z)
  | (t1, inr diff) =>
      match strip diff with
      | [] => (t1 ++ [PrintErr NoStagedChanges], inr 1%Z)
      | _ =>
          match _generate_message w diff (provider (w_config w))
                  (model (w_config w)) (style (w_config w)) with
          | (t2, inl exc) =>
              (t1 ++ PrintOut Generating
                  :: t2 ++ [PrintErr (GenerationFailed exc)], inr 1%Z)
          | (t2, inr message) =>
              match strip message with
              | [] =>
                  (t1 ++ PrintOut Generating
                      :: t2 ++ [PrintErr EmptyMessage], inr 1%Z)
              | _ =>
                  (t1 ++ PrintOut Generating
                      :: t2 ++ [PrintOut (ShowMessage message);
                                RunGit (cleaned ++ [short_flag; message])],
                   inr (w_run_git w (cleaned ++ [short_flag; message])))
              end
          end
      end
  end.
Proof.
  intros H; unfold main; rewrite H; cbn [negb].
  unfold attempt, bind, _get_config.
  destruct (_get_staged_diff w 500) as [t1 [exc|diff]]; [reflexivity|].
  destruct (strip diff) as [|d0 ds]; [reflexivity|].
  cbn [emit ret app].
  destruct (_generate_message w diff _ _ _) as [t2 [exc|message]];
    [reflexivity|].
  destruct (strip message) as [|m0 ms]; [reflexivity|].
  unfold _run_git, bind, emit, ret; reflexivity.
Qed.

Lemma extract_true_pair (argv : list str) :
  fst (_extract_commit_args argv) = true ->
  _extract_commit_args argv = (true, snd (_extract_commit_args argv)).
Proof.
  destruct (_extract_commit_args argv) as [sg cl]; simpl.
  intros ->; reflexivity.
Qed.

(** Without a key, or with another provider, the generator raises before
    any external call. *)
Lemma generate_refuses (w : World) (diff provider model style : str) :
  w_api_key w = None \/ w_api_key w = Some [] \/
  str_eqb provider (lit "openai") = false ->
  exists exc,
    _generate_message w diff provider model style = ([], inl exc).
Proof.
  intros H; unfold _generate_message.
  destruct (str_eqb provider (lit "openai")) eqn:Ep; cbn [negb];
    [|eexists; reflexivity].
  unfold _openai_chat_complete.
  destruct H as [->|[->|H]]; [| |discriminate];
    eexists; reflexivity.
Qed.

(** X13.  Nothing is sent to the network unless an API key is set and
    the configured provider is the supported one: without them [main]
    makes no request whatever its arguments, and an invocation that asks
    for a generated message ends with exit code 1. *)
Theorem no_request_without_key (w : World) (argv : list str) :
  w_api_key w = None \/ w_api_key w = Some [] \/
  str_eqb (provider (w_config w)) (lit "openai") = false ->
  existsb is_post (fst (main w argv)) = false /\
  (fst (_extract_commit_args argv) = true -> snd (main w argv) = inr 1%Z).
Proof.
  intros Hk.
  destruct (fst (_extract_commit_args argv)) eqn:E.
  - rewrite (main_generate w argv _ (extract_true_pair argv E)).
    pose proof (get_staged_diff_trace w 500) as Ht.
    destruct (_get_staged_diff w 500) as [t1 [exc|diff]];
      simpl in Ht; subst t1; [split; reflexivity|].
    destruct (strip diff) as [|d0 ds]; [split; reflexivity|].
    destruct (generate_refuses w diff (provider (w_config w))
                (model (w_config w)) (style (w_config w)) Hk) as [exc ->].
    split; reflexivity.
  - apply extract_false_unchanged in E.
    unfold main; rewrite E; split; [reflexivity | discriminate].
Qed.

Lemma no_request_without_key_witness :
  existsb is_post
    (fst (main {| w_run_git := fun _ => 0%Z;
                  w_capture_git := fun _ => (0%Z, lit "+x", []);
                  w_config := w_config (sample_world 0 [] []);
                  w_api_key := None;
                  w_post := fun _ => PostReturned 200 (lit "feat: x");
                  w_json_content := fun text => Some text;
                  w_lower := fun s => s |}
            [commit; short_flag; []])) = false /\
  (fst (_extract_commit_args [commit; short_flag; []]) = true ->
   snd (main {| w_run_git := fun _ => 0%Z;
                w_capture_git := fun _ => (0%Z, lit "+x", []);
                w_config := w_config (sample_world 0 [] []);
                w_api_key := None;
                w_post := fun _ => PostReturned 200 (lit "feat: x");
                w_json_content := fun text => Some text;
                w_lower := fun s => s |}
          [commit; short_flag; []]) = inr 1%Z).
Proof.
  apply (no_request_without_key _ [commit; short_flag; []]).
  left; reflexivity.
Defined.

(** X14.  The check of [main] for an empty generated message never
    fires: whatever the world and the arguments, [main] does not print
    that diagnostic, since a subject the generator returns is never
    blank. *)
Theorem empty_message_unreachable (w : World) (argv : list str) :
  Forall (fun ev => ev <> PrintErr EmptyMessage) (fst (main w argv)).
Proof.
  destruct (fst (_extract_commit_args argv)) eqn:E.
  - rewrite (main_generate w argv _ (extract_true_pair argv E)).
    pose proof (get_staged_diff_trace w 500) as Ht.
    destruct (_get_staged_diff w 500) as [t1 [exc|diff]];
      simpl in Ht; subst t1.
    { repeat constructor; discriminate. }
    destruct (strip diff) as [|d0 ds].
    { repeat constructor; discriminate. }
    destruct (generate_trace w diff (provider (w_config w))
                (model (w_config w)) (style (w_config w)))
      as [Hg|[p [_ Hg]]];
      destruct (_generate_message w diff _ _ _)
        as [t2 [exc|message]] eqn:G; simpl in Hg; subst t2.
    + repeat constructor; discriminate.
    + destruct (generate_returns_subject _ _ _ _ _ _ _ G)
        as [G1 [_ [_ G4]]].
      rewrite G4; destruct message; [congruence|].
      repeat constructor; discriminate.
    + repeat constructor; discriminate.
    + destruct (generate_returns_subject _ _ _ _ _ _ _ G)
        as [G1 [_ [_ G4]]].
      rewrite G4; destruct message; [congruence|].
      repeat constructor; discriminate.
  - apply extract_false_unchanged in E.
    unfold main; rewrite E; repeat constructor; discriminate.
Qed.






(** ** The configuration *)

Lemma dict_get_set_same (d : Config.dict) (k v : str) :
  Config.dict_get (Config.dict_set d k v) k = Some v.
Proof.
  induction d as [|[k' v'] d IH]; simpl.
  - rewrite str_eqb_refl; reflexivity.
  - destruct (str_eqb k' k) eqn:E; simpl.
    + rewrite str_eqb_refl; reflexivity.
    + rewrite E; exact IH.
Qed.

Lemma dict_get_set_other (d : Config.dict) (k v k' : str) :
  k' <> k ->
  Config.dict_get (Config.dict_set d k v) k' = Config.dict_get d k'.
Proof.
  intros Hne; induction d as [|[k0 v0] d IH]; simpl.
  - destruct (str_eqb k k') eqn:E; [|reflexivity].
    apply str_eqb_eq in E; congruence.
  - destruct (str_eqb k0 k) eqn:E; simpl.
    + apply str_eqb_eq in E; subst k0.
      destruct (str_eqb k k') eqn:E'; [|reflexivity].
      apply str_eqb_eq in E'; congruence.
    + rewrite IH; reflexivity.
Qed.

Lemma dict_set_keys (d : Config.dict) (k v x : str) :
  In x (map fst (Config.dict_set d k v)) <-> x = k \/ In x (map fst d).
Proof.
  induction d as [|[k0 v0] d IH]; simpl.
  - split; [intros [H|[]]; auto | intros [H|[]]; auto].
  - destruct (str_eqb k0 k) eqn:E; simpl.
    + apply str_eqb_eq in E; subst k0; intuition congruence.
    + rewrite IH; intuition congruence.
Qed.

Lemma dict_set_well_formed (d : Config.dict) (k v : str) :
  Config.is_key k -> strip v = v ->
  Config.well_formed d -> Config.well_formed (Config.dict_set d k v).
Proof.
  intros Hk Hv [Hnd Hall]; split.
  - induction d as [|[k0 v0] d IH]; simpl.
    + constructor; [intros [] | constructor].
    + inversion Hnd; subst; inversion Hall; subst.
      destruct (str_eqb k0 k) eqn:E; simpl.
      * apply str_eqb_eq in E; subst k0; constructor; assumption.
      * constructor; [|apply IH; assumption].
        rewrite dict_set_keys; intros [H|H]; [|contradiction].
        simpl in H; subst k0; rewrite str_eqb_refl in E; discriminate.
  - clear Hnd; induction Hall as [|[k0 v0] d H0 Hall IH]; simpl.
    + constructor; [split; assumption | constructor].
    + destruct (str_eqb k0 k); constructor; try assumption.
      split; assumption.
Qed.

Lemma has_colon_false (s : str) :
  Config.has_colon s = false <-> ~ In Config.colon s.
Proof.
  unfold Config.has_colon; induction s as [|c s IH]; simpl; [tauto|].
  rewrite orb_false_iff, IH, N.eqb_neq; split.
  - intros [H1 H2] [H|H]; [congruence | contradiction].
  - intros H; split; [intros ->; apply H; left; reflexivity|].
    intros H'; apply H; right; exact H'.
Qed.

Lemma split_colon_key (line : str) :
  Config.has_colon (fst (Config.split_colon line)) = false.
Proof.
  induction line as [|c line IH]; [reflexivity|]; simpl.
  destruct (N.eqb_spec c Config.colon) as [E|E]; [reflexivity|].
  destruct (Config.split_colon line) as [key value]; simpl in *.
  rewrite IH; apply N.eqb_neq in E; rewrite E; reflexivity.
Qed.

Lemma split_colon_app (key rest : str) :
  Config.has_colon key = false ->
  Config.split_colon (key ++ Config.colon :: rest) = (key, rest).
Proof.
  induction key as [|c key IH]; simpl; [reflexivity|].
  intros H; apply orb_false_iff in H; destruct H as [Hc Hk].
  rewrite Hc, (IH Hk); reflexivity.
Qed.

Lemma startswith_hash (c : char) (s : str) :
  startswith (c :: s) [Config.hash] = (c =? Config.hash)%N.
Proof. simpl; destruct s; apply andb_true_r. Qed.

(** A line either changes nothing, or sets one well-formed key to a
    trimmed value, whatever the dictionary. *)
Lemma read_line_cases (raw_line : str) :
  (forall d, Config.read_line d raw_line = d) \/
  exists key value,
    Config.is_key key /\ strip value = value /\
    forall d, Config.read_line d raw_line = Config.dict_set d key value.
Proof.
  unfold Config.read_line.
  destruct (strip_head raw_line) as [H|[c [t [H Hc]]]]; rewrite H;
    [left; reflexivity|].
  destruct (startswith (c :: t) [Config.hash]) eqn:Eh; [left; reflexivity|].
  destruct (Config.has_colon (c :: t)) eqn:Ec; cbn [negb];
    [|left; reflexivity].
  pose proof (split_colon_key (c :: t)) as Hkey.
  destruct (Config.split_colon (c :: t)) as [key value] eqn:Es.
  cbn [fst] in Hkey.
  destruct (strip key) as [|k0 ks] eqn:Ek; [left; reflexivity|].
  right; exists (k0 :: ks), (strip value).
  split; [|split; [apply strip_idem | reflexivity]].
  split; [discriminate|].
  split; [rewrite <- Ek; apply strip_idem|].
  split.
  - apply has_colon_false; intros Hin.
    apply has_colon_false in Hkey; apply Hkey.
    apply In_strip; rewrite Ek; exact Hin.
  - simpl in Es.
    destruct (N.eqb_spec c Config.colon) as [E|E].
    + inversion Es; subst key; discriminate.
    + destruct (Config.split_colon t) as [key' value'].
      inversion Es; subst key value.
      unfold strip in Ek; rewrite (lstrip_fixed c key' Hc) in Ek.
      destruct (rstrip_head c key' Hc) as [u Hu].
      rewrite Hu in Ek; inversion Ek; subst k0 ks.
      rewrite startswith_hash in Eh |- *; exact Eh.
Qed.

Lemma read_lines_well_formed (lines : list str) :
  forall d, Config.well_formed d ->
  Config.well_formed (fold_left Config.read_line lines d).
Proof.
  induction lines as [|l lines IH]; intros d Hd; [exact Hd|].
  simpl; apply IH.
  destruct (read_line_cases l) as [H|[k [v [Hk [Hv H]]]]]; rewrite H;
    [exact Hd | apply dict_set_well_formed; assumption].
Qed.

Lemma read_line_passed_over (raw_line : str) :
  Config.passed_over raw_line ->
  forall d, Config.read_line d raw_line = d.
Proof.
  unfold Config.read_line.
  intros [H|[[ws [rest [-> Hws]]]|[H|[ws [rest [-> Hws]]]]]] d.
  - apply strip_blank in H; rewrite H; reflexivity.
  - rewrite (strip_blank_prefix ws _ Hws).
    unfold strip; rewrite (lstrip_fixed Config.hash rest eq_refl).
    destruct (rstrip_head Config.hash rest eq_refl) as [t ->].
    rewrite startswith_hash; reflexivity.
  - destruct (strip raw_line) as [|c t] eqn:Es; [reflexivity|].
    destruct (startswith (c :: t) [Config.hash]); [reflexivity|].
    replace (Config.has_colon (c :: t)) with false; [reflexivity|].
    symmetry; apply has_colon_false; intros Hin.
    apply has_colon_false in H; apply H.
    apply In_strip; rewrite Es; exact Hin.
  - rewrite (strip_blank_prefix ws _ Hws).
    unfold strip; rewrite (lstrip_fixed Config.colon rest eq_refl).
    destruct (rstrip_head Config.colon rest eq_refl) as [t ->].
    rewrite startswith_hash; reflexivity.
Qed.

Lemma rstrip_trimmed (v : str) : strip v = v -> rstrip v = v.
Proof.
  intros H; rewrite <- H at 1; unfold strip.
  rewrite rstrip_idem; exact H.
Qed.

Lemma read_setting_line (key value : str) :
  Config.is_key key -> strip value = value ->
  forall d,
  Config.read_line d (Config.setting_line key value) =
  Config.dict_set d key value.
Proof.
  intros [Hne [Hk [Hc Hh]]] Hv d.
  destruct key as [|c key]; [congruence|].
  assert (Hsp : isspace c = false).
  { destruct (strip_head (c :: key)) as [H|[c' [t [H Hc']]]];
      rewrite Hk in H; [discriminate | inversion H; subst; exact Hc']. }
  assert (Hline : strip (Config.setting_line (c :: key) value) =
                  (c :: key) ++ Config.colon
                    :: match value with [] => [] | _ => 32%N :: value end).
  { unfold Config.setting_line, strip.
    change (((c :: key) ++ [Config.colon; 32%N] ++ value ++ [LF]))
      with (c :: (key ++ [Config.colon; 32%N] ++ value ++ [LF])).
    rewrite (lstrip_fixed c _ Hsp).
    change (c :: (key ++ [Config.colon; 32%N] ++ value ++ [LF]))
      with ((c :: key) ++ (Config.colon :: 32%N :: (value ++ [LF]))).
    rewrite rstrip_app, !rstrip_cons.
    rewrite (rstrip_app_blank value [LF] eq_refl), (rstrip_trimmed _ Hv).
    destruct value; reflexivity. }
  unfold Config.read_line; rewrite Hline.
  cbn [app]; rewrite startswith_hash in Hh |- *; rewrite Hh.
  assert (Hcol : forall r,
             Config.has_colon ((c :: key) ++ Config.colon :: r) = true).
  { intros r; unfold Config.has_colon; rewrite existsb_app; simpl.
    rewrite !orb_true_r; reflexivity. }
  change (c :: key ++ ?x) with ((c :: key) ++ x).
  rewrite Hcol; cbn [negb].
  rewrite (split_colon_app _ _ Hc), Hk.
  destruct value as [|v0 vs]; [reflexivity|].
  f_equal; rewrite <- Hv at 2.
  apply (strip_blank_prefix [32%N] (v0 :: vs)); reflexivity.
Qed.

Lemma read_line_alone (raw_line key value : str) :
  Config.read_line [] raw_line = [(key, value)] ->
  forall d, Config.read_line d raw_line = Config.dict_set d key value.
Proof.
  intros H; destruct (read_line_cases raw_line) as [H0|[k [v [_ [_ H0]]]]].
  - rewrite H0 in H; discriminate.
  - rewrite H0 in H; simpl in H; inversion H; subst; exact H0.
Qed.

Lemma read_lines_keep (key : str) (after : list str) :
  Forall (fun l => forall v, Config.read_line [] l <> [(key, v)]) after ->
  forall d,
  Config.dict_get (fold_left Config.read_line after d) key =
  Config.dict_get d key.
Proof.
  induction 1 as [|l after Hl _ IH]; intros d; [reflexivity|].
  simpl; rewrite IH.
  destruct (read_line_cases l) as [H0|[k [v [_ [_ H0]]]]]; rewrite H0;
    [reflexivity|].
  apply dict_get_set_other; intros ->.
  apply (Hl v); rewrite H0; reflexivity.
Qed.

(** X18.  Whatever the file holds, the dictionary read from it has each
    key once; every key is not empty, trimmed, without a colon and not
    starting with the comment sign, and every value is trimmed. *)
Theorem rc_well_formed (file : Config.rc_file) :
  Config.well_formed (snd (Config._read_simple_rc file)).
Proof.
  destruct file as [|lines failed]; simpl.
  - split; constructor.
  - apply read_lines_well_formed; split; constructor.
Qed.

(** X19.  The last line that sets a key wins: when a line sets a key to
    a value and no later line sets that key, the dictionary read from the
    file gives that value for the key, whatever came before and whether
    or not the reading failed afterwards. *)
Theorem rc_last_wins (before after : list str) (l key value : str)
    (failed : bool) :
  Config.read_line [] l = [(key, value)] ->
  Forall (fun l' => forall v, Config.read_line [] l' <> [(key, v)]) after ->
  Config.dict_get
    (snd (Config._read_simple_rc
            (Config.FileRead (before ++ l :: after) failed))) key =
  Some value.
Proof.
  intros Hl Hafter; simpl.
  rewrite fold_left_app; simpl.
  rewrite (read_lines_keep key after Hafter).
  rewrite (read_line_alone l key value Hl).
  apply dict_get_set_same.
Qed.

Lemma rc_last_wins_witness :
  Config.dict_get
    (snd (Config._read_simple_rc
            (Config.FileRead
               ([lit "model: a"] ++ lit "model : b  "
                  :: [lit "style: plain"; lit "# model: c"]) true)))
    (lit "model") = Some (lit "b").
Proof.
  apply (rc_last_wins [lit "model: a"]
           [lit "style: plain"; lit "# model: c"] (lit "model : b  ")
           (lit "model") (lit "b") true).
  - reflexivity.
  - repeat constructor; intros v; vm_compute; discriminate.
Defined.

(** X20.  A line that is blank, that is a comment, that has no colon, or
    that has only whitespace before its first colon changes nothing,
    wherever it stands in the file. *)
Theorem rc_passed_over (before after : list str) (l : str)
    (failed : bool) :
  Config.passed_over l ->
  Config._read_simple_rc (Config.FileRead (before ++ l :: after) failed) =
  Config._read_simple_rc (Config.FileRead (before ++ after) failed).
Proof.
  intros Hl; simpl; rewrite !fold_left_app; simpl.
  rewrite (read_line_passed_over l Hl); reflexivity.
Qed.

Lemma rc_passed_over_witness :
  Config._read_simple_rc
    (Config.FileRead
       ([lit "model: a"] ++ lit "  # provider: x" :: [lit "style: s"])
       false) =
  Config._read_simple_rc
    (Config.FileRead ([lit "model: a"] ++ [lit "style: s"]) false).
Proof.
  apply (rc_passed_over [lit "model: a"] [lit "style: s"]
           (lit "  # provider: x") false).
  right; left; exists (lit "  "), (lit " provider: x").
  split; reflexivity.
Defined.

(** X21.  Writing a setting and reading it back: after any lines, the
    line made of a key, a colon, a space, a trimmed value and a newline
    sets exactly that key to exactly that value (the empty value
    included), and leaves every other key as it was. *)
Theorem rc_setting_line (lines : list str) (key value : str)
    (failed : bool) :
  Config.is_key key ->
  strip value = value ->
  Config.dict_get
    (snd (Config._read_simple_rc
            (Config.FileRead (lines ++ [Config.setting_line key value])
               failed))) key = Some value /\
  forall other, other <> key ->
    Config.dict_get
      (snd (Config._read_simple_rc
              (Config.FileRead (lines ++ [Config.setting_line key value])
                 failed))) other =
    Config.dict_get
      (snd (Config._read_simple_rc (Config.FileRead lines failed))) other.
Proof.
  intros Hk Hv; simpl; rewrite fold_left_app; simpl.
  rewrite (read_setting_line key value Hk Hv).
  split; [apply dict_get_set_same|].
  intros other Ho; apply dict_get_set_other, Ho.
Qed.

Lemma rc_setting_line_witness :
  Config.dict_get
    (snd (Config._read_simple_rc
            (Config.FileRead
               ([lit "model: a"]
                ++ [Config.setting_line (lit "model") (lit "gpt: 4")])
               false))) (lit "model") = Some (lit "gpt: 4") /\
  forall other, other <> lit "model" ->
    Config.dict_get
      (snd (Config._read_simple_rc
              (Config.FileRead
                 ([lit "model: a"]
                  ++ [Config.setting_line (lit "model") (lit "gpt: 4")])
                 false))) other =
    Config.dict_get
      (snd (Config._read_simple_rc
              (Config.FileRead [lit "model: a"] false))) other.
Proof.
  apply (rc_setting_line [lit "model: a"] (lit "model") (lit "gpt: 4")
           false).
  - repeat split; try reflexivity; discriminate.
  - reflexivity.
Defined.

(** X22.  Each of the three settings is the environment variable when it
    is set (the empty string included), else the value of the last line
    of the rc file that sets its key, else the default.  Here the last
    line of the file sets the key; a file that is missing gives the
    defaults; a reading that failed still gives what was read. *)
Theorem config_precedence (env : str -> option str) (lines : list str)
    (value : str) (failed : bool) :
  strip value = value ->
  provider
    (snd (Config._get_config env
            (Config.FileRead
               (lines ++ [Config.setting_line (lit "provider") value])
               failed))) =
  Config.getenv env (lit "NSCM_PROVIDER") value /\
  model
    (snd (Config._get_config env
            (Config.FileRead
               (lines ++ [Config.setting_line (lit "model") value])
               failed))) =
  Config.getenv env (lit "NSCM_MODEL") value /\
  style
    (snd (Config._get_config env
            (Config.FileRead
               (lines ++ [Config.setting_line (lit "style") value])
               failed))) =
  Config.getenv env (lit "NSCM_STYLE") value /\
  snd (Config._get_config env Config.FileNotFound) =
  {| provider := Config.getenv env (lit "NSCM_PROVIDER") (lit "openai");
     model := Config.getenv env (lit "NSCM_MODEL") (lit "gpt-4o-mini");
     style := Config.getenv env (lit "NSCM_STYLE") (lit "conventional") |}.
Proof.
  intros Hv.
  assert (Hget : forall key, Config.is_key key ->
            Config.dict_get
              (fold_left Config.read_line
                 (lines ++ [Config.setting_line key value]) []) key =
            Some value).
  { intros key Hk; rewrite fold_left_app; simpl.
    rewrite (read_setting_line key value Hk Hv).
    apply dict_get_set_same. }
  unfold Config._get_config, Config._read_simple_rc, Config.rc_get.
  cbn [snd provider model style].
  rewrite !Hget by (repeat split; try reflexivity; discriminate).
  repeat split.
Qed.

Lemma config_precedence_witness :
  provider
    (snd (Config._get_config (fun _ => None)
            (Config.FileRead
               ([lit "model: a"]
                ++ [Config.setting_line (lit "provider") (lit "local")])
               false))) =
  Config.getenv (fun _ => None) (lit "NSCM_PROVIDER") (lit "local") /\
  model
    (snd (Config._get_config (fun _ => None)
            (Config.FileRead
               ([lit "model: a"]
                ++ [Config.setting_line (lit "model") (lit "local")])
               false))) =
  Config.getenv (fun _ => None) (lit "NSCM_MODEL") (lit "local") /\
  style
    (snd (Config._get_config (fun _ => None)
            (Config.FileRead
               ([lit "model: a"]
                ++ [Config.setting_line (lit "style") (lit "local")])
               false))) =
  Config.getenv (fun _ => None) (lit "NSCM_STYLE") (lit "local") /\
  snd (Config._get_config (fun _ => None) Config.FileNotFound) =
  {| provider :=
       Config.getenv (fun _ => None) (lit "NSCM_PROVIDER") (lit "openai");
     model :=
       Config.getenv (fun _ => None) (lit "NSCM_MODEL") (lit "gpt-4o-mini");
     style :=
       Config.getenv (fun _ => None) (lit "NSCM_STYLE")
         (lit "conventional") |}.
Proof.
  apply (config_precedence (fun _ => None) [lit "model: a"] (lit "local")
           false).
  reflexivity.
Defined.
